(** * Garden: buffered event stream and command server

    A shallow embedding of
      - [core/src/enterprise/buffered-event-stream.ts] (class
        [BufferedEventStream]), and
      - the command server (class [GardenServer]: [setGarden], the
        [POST /api] and [POST /events] handlers, the [/ws] endpoint),
    with the properties of their documented behaviour.

    Mutable objects that are shared by reference (event buses, interval
    timers, open sockets) live in an explicit store; the classes hold
    identifiers into it. *)

From Stdlib Require Import ZArith List String Bool Lia DecimalString.
From stdpp Require Import base gmap strings list.
Import ListNotations.

Local Open Scope string_scope.
Local Open Scope list_scope.
Set Warnings "-register-all".

(* ===================================================================== *)
(** ** JavaScript values and the few operators the sources use *)
(* ===================================================================== *)

Module Js.

(** Values that reach the handlers: parsed JSON, plus [undefined] for an
    absent property.  Objects are association lists with unique keys
    (the first binding of a key is the property). *)
Inductive Value :=
| Undefined
| Null
| Boolean (b : bool)
| Num (n : Z)
| Str (s : string)
| Arr (items : list Value)
| Obj (fields : list (string * Value)).

(** How an evaluation ends: normally, or with a thrown [TypeError]. *)
Inductive Completion (A : Type) :=
| Normal (a : A)
| TypeError.
Arguments Normal {A} a.
Arguments TypeError {A}.

Fixpoint assoc {A} (k : string) (fs : list (string * A)) : option A :=
  match fs with
  | [] => None
  | (k', v) :: fs' => if String.eqb k k' then Some v else assoc k fs'
  end.

(** [v.k]: reading a property of [undefined] or [null] throws; a missing
    property reads as [undefined]; arrays and strings have [length]. *)
Definition get (v : Value) (k : string) : Completion Value :=
  match v with
  | Undefined | Null => TypeError
  | Obj fs => Normal (match assoc k fs with Some x => x | None => Undefined end)
  | Arr items =>
      Normal (if String.eqb k "length" then Num (Z.of_nat (length items)) else Undefined)
  | Str s =>
      Normal (if String.eqb k "length" then Num (Z.of_nat (String.length s)) else Undefined)
  | Boolean _ | Num _ => Normal Undefined
  end.

(** lodash [omit(obj, keys)] on an object. *)
Definition omit (v : Value) (keys : list string) : Value :=
  match v with
  | Obj fs =>
      Obj (List.filter (fun kv => negb (existsb (String.eqb (fst kv)) keys)) fs)
  | _ => Obj []
  end.

(** Truthiness of a [string | undefined]. *)
Definition truthy (s : option string) : bool :=
  match s with
  | Some s => negb (String.eqb s "")
  | None => false
  end.

(** [a || b] on [string | undefined]. *)
Definition or (a b : option string) : option string :=
  if truthy a then a else b.

(** [Array.prototype.splice(start, deleteCount)]: the removed items and
    what is left in the array. *)
Definition splice {A} (start deleteCount : Z) (l : list A) : list A * list A :=
  let len := Z.of_nat (length l) in
  let actualStart :=
    if (start <? 0)%Z then Z.max (len + start) 0 else Z.min start len in
  let actualDeleteCount := Z.min (Z.max deleteCount 0) (len - actualStart) in
  let s := Z.to_nat actualStart in
  let d := Z.to_nat actualDeleteCount in
  (firstn d (skipn s l), firstn s l ++ skipn (s + d) l).

End Js.

(* ===================================================================== *)
(** ** Event buses *)
(* ===================================================================== *)

Module Bus.

Definition EventName := string.
Definition BusId := nat.

(** Listener closures, by identity.  Each constructor is one closure
    expression of the sources; the number tells apart the closures made
    by separate evaluations of it. *)
Inductive Listener :=
| StreamEventListener (closure : nat) (gardenEventName : EventName)
    (* (payload) => this.streamEvent(gardenEventName, payload) *)
| StreamLogListener
    (* (_name, payload) => this.streamLogEntry(payload) *)
| ServersUpdatedListener
    (* GardenServer.serversUpdatedListener *)
| SocketEventListener (conn : nat)
    (* (name, payload) => send("event", { name, payload }) *)
| OtherListener (id : nat).

#[global] Instance Listener_eq_dec : EqDecision Listener.
Proof. solve_decision. Defined.

(** Modelled from the spec: the [EventBus] class ([events.ts]) is not
    among the sources.  Section 4.1: listeners register for a named event
    or for any event; publishing invokes all current listeners
    synchronously in registration order; publishing with no listeners is
    a no-op.  Registering twice gives two registrations; removing a
    listener removes one registration of it. *)
Record EventBus := {
  named : list (EventName * Listener);
  anys : list Listener;
}.

Definition empty : EventBus := {| named := []; anys := [] |}.

Fixpoint remove_first {A} `{EqDecision A} (x : A) (l : list A) : list A :=
  match l with
  | [] => []
  | y :: l' => if decide (x = y) then l' else y :: remove_first x l'
  end.

(** Removing one registration of each of [xs], in order. *)
Definition removeAll {A} `{EqDecision A} (xs l : list A) : list A :=
  fold_left (fun acc x => remove_first x acc) xs l.

Definition on (name : EventName) (l : Listener) (b : EventBus) : EventBus :=
  {| named := named b ++ [(name, l)]; anys := anys b |}.

Definition removeListener (name : EventName) (l : Listener) (b : EventBus) : EventBus :=
  {| named := remove_first (name, l) (named b); anys := anys b |}.

Definition onAny (l : Listener) (b : EventBus) : EventBus :=
  {| named := named b; anys := anys b ++ [l] |}.

Definition offAny (l : Listener) (b : EventBus) : EventBus :=
  {| named := named b; anys := remove_first l (anys b) |}.

(** The listeners a publish of [name] invokes, in order. *)
Definition listenersFor (name : EventName) (b : EventBus) : list Listener :=
  anys b ++ map snd (List.filter (fun nl => String.eqb (fst nl) name) (named b)).

(** The store of buses: every [EventBus] object is shared by reference. *)
Definition at_ (h : gmap BusId EventBus) (b : BusId) : EventBus :=
  default empty (h !! b).

Definition update (f : EventBus -> EventBus) (b : BusId)
    (h : gmap BusId EventBus) : gmap BusId EventBus :=
  <[b := f (at_ h b)]> h.

End Bus.

(** The fields of a [Garden] instance that the two classes read.  [events]
    is a reference to the instance's own bus. *)
Module Gdn.
Record Garden := {
  events : Bus.BusId;
  projectId : option string;
  environmentName : string;
  namespace : string;
  artifactsPath : string;
}.
End Gdn.

(* ===================================================================== *)
(** ** Wire format of the batches *)
(* ===================================================================== *)

Module Api.

Definition Date := Z.

Record StreamEvent := {
  name : Bus.EventName;
  payload : Js.Value;
  timestamp : Date;
}.

Record LogEntryEvent := {
  key : string;
  parentKey : option string;
  revision : Z;
  msg : string + list string;
  le_timestamp : Date;
  level : Z;
  data : option Js.Value;
  section : option string;
  metadata : option Js.Value;
}.

Record StreamTarget := {
  host : string;
  clientAuthToken : string;
}.

Record ApiBatchBase := {
  workflowRunUid : option string;
  sessionId : string;
  projectUid : option string;
}.

Record ApiEventBatch := {
  eventBase : ApiBatchBase;
  events : list StreamEvent;
  environment : string;
  namespace : string;
}.

Record ApiLogBatch := {
  logBase : ApiBatchBase;
  logEntries : list LogEntryEvent;
}.

Inductive Data :=
| EventData (b : ApiEventBatch)
| LogData (b : ApiLogBatch).

Definition base (d : Data) : ApiBatchBase :=
  match d with
  | EventData b => eventBase b
  | LogData b => logBase b
  end.

(** One [got.post(url, { json, headers })]. [headers] is
    [makeAuthHeader(target.clientAuthToken)], kept as the token. *)
Record Post := {
  target : StreamTarget;
  path : string;
  url : string;
  headers : string;
  json : Data;
}.

End Api.

(* ===================================================================== *)
(** ** [BufferedEventStream] *)
(* ===================================================================== *)

Module Stream.

Import Bus.

Definition TimerId := nat.

Definition controlEventNames : list EventName := ["_workflowRunRegistered"].

(** [controlEventNames.has(name)] *)
Definition isControlEvent (name : EventName) : bool :=
  existsb (String.eqb name) controlEventNames.

(** The instance fields.  [gardenEventListeners] is the object used as a
    map from event name to listener, in insertion order (the order of
    [Object.entries]); [intervalId] is [None] for [null]/unset. *)
Record BufferedEventStream := {
  sessionId : string;
  targets : list Api.StreamTarget;
  garden : option Gdn.Garden;
  workflowRunUid : option string;
  gardenEventListeners : list (EventName * Listener);
  intervalId : option TimerId;
  bufferedEvents : list Api.StreamEvent;
  bufferedLogEntries : list Api.LogEntryEvent;
  intervalMsec : Z;
  maxBatchSize : Z;
}.

(** What the stream shares with the rest of the process: the buses, and
    the interval timers that are scheduled.  [nextTimer] and
    [nextClosure] number the timers and listener closures created. *)
Record World := {
  buses : gmap BusId EventBus;
  timers : list TimerId;
  nextTimer : TimerId;
  nextClosure : nat;
}.

Definition withBuses (w : World) (h : gmap BusId EventBus) : World :=
  {| buses := h; timers := timers w; nextTimer := nextTimer w;
     nextClosure := nextClosure w |}.

(** [setInterval(cb, ms)] and [clearInterval(id)] *)
Definition setInterval (w : World) : World * TimerId :=
  ({| buses := buses w; timers := timers w ++ [nextTimer w];
      nextTimer := S (nextTimer w); nextClosure := nextClosure w |},
   nextTimer w).

Definition clearInterval (w : World) (t : TimerId) : World :=
  {| buses := buses w; timers := remove_first t (timers w);
     nextTimer := nextTimer w; nextClosure := nextClosure w |}.

(** [constructor(log, sessionId)]; [logEvents] is [log.root.events]. *)
Definition new (w : World) (logEvents : BusId) (sid : string)
    : World * BufferedEventStream :=
  (withBuses w (Bus.update (onAny StreamLogListener) logEvents (buses w)),
   {| sessionId := sid; targets := []; garden := None;
      workflowRunUid := None; gardenEventListeners := [];
      intervalId := None; bufferedEvents := []; bufferedLogEntries := [];
      intervalMsec := 1000; maxBatchSize := 100 |}).

(** [obj[k] = v] on an object used as a map. *)
Fixpoint objSet {A} (k : string) (v : A) (o : list (string * A)) : list (string * A) :=
  match o with
  | [] => [(k, v)]
  | (k', v') :: o' =>
      if String.eqb k k' then (k, v) :: o' else (k', v') :: objSet k v o'
  end.

(** [payload.workflowRunUid].  The read throws on a [null] or [undefined]
    payload.  The payload type of ["_workflowRunRegistered"] is
    [{ workflowRunUid: string }] and the field it is stored in is a
    [string | undefined]: a property that is absent reads as [undefined], and
    so does here a property whose value is no string, which neither type
    admits. *)
Definition payloadWorkflowRunUid (payload : Js.Value) : Js.Completion (option string) :=
  match Js.get payload "workflowRunUid" with
  | Js.Normal (Js.Str s) => Js.Normal (Some s)
  | Js.Normal _ => Js.Normal None
  | Js.TypeError => Js.TypeError
  end.

(** [handleControlEvent(name, payload)]: the stream after the call.  When
    the read of the payload throws, the assignment is not reached and the
    stream is as it was. *)
Definition handleControlEvent (s : BufferedEventStream) (name : EventName)
    (payload : Js.Value) : BufferedEventStream :=
  if String.eqb name "_workflowRunRegistered" then
    match payloadWorkflowRunUid payload with
    | Js.Normal uid =>
        {| sessionId := sessionId s; targets := targets s; garden := garden s;
           workflowRunUid := uid;
           gardenEventListeners := gardenEventListeners s;
           intervalId := intervalId s; bufferedEvents := bufferedEvents s;
           bufferedLogEntries := bufferedLogEntries s;
           intervalMsec := intervalMsec s; maxBatchSize := maxBatchSize s |}
    | Js.TypeError => s
    end
  else s.

(** Whether [streamEvent(name, payload)] ends with the [TypeError] of the
    read in [handleControlEvent]. *)
Definition streamEventThrows (name : EventName) (payload : Js.Value) : bool :=
  isControlEvent name && String.eqb name "_workflowRunRegistered" &&
  match payloadWorkflowRunUid payload with
  | Js.TypeError => true
  | Js.Normal _ => false
  end.

(** [streamEvent(name, payload)]; [now] is the value of [new Date()]. *)
Definition streamEvent (s : BufferedEventStream) (name : EventName)
    (payload : Js.Value) (now : Api.Date) : BufferedEventStream :=
  if isControlEvent name then handleControlEvent s name payload
  else
    {| sessionId := sessionId s; targets := targets s; garden := garden s;
       workflowRunUid := workflowRunUid s;
       gardenEventListeners := gardenEventListeners s;
       intervalId := intervalId s;
       bufferedEvents :=
         bufferedEvents s ++
           [{| Api.name := name; Api.payload := payload; Api.timestamp := now |}];
       bufferedLogEntries := bufferedLogEntries s;
       intervalMsec := intervalMsec s; maxBatchSize := maxBatchSize s |}.

Definition streamLogEntry (s : BufferedEventStream) (logEntry : Api.LogEntryEvent)
    : BufferedEventStream :=
  {| sessionId := sessionId s; targets := targets s; garden := garden s;
     workflowRunUid := workflowRunUid s;
     gardenEventListeners := gardenEventListeners s;
     intervalId := intervalId s; bufferedEvents := bufferedEvents s;
     bufferedLogEntries := bufferedLogEntries s ++ [logEntry];
     intervalMsec := intervalMsec s; maxBatchSize := maxBatchSize s |}.

Definition withBuffers (s : BufferedEventStream) (evs : list Api.StreamEvent)
    (les : list Api.LogEntryEvent) : BufferedEventStream :=
  {| sessionId := sessionId s; targets := targets s; garden := garden s;
     workflowRunUid := workflowRunUid s;
     gardenEventListeners := gardenEventListeners s;
     intervalId := intervalId s; bufferedEvents := evs;
     bufferedLogEntries := les;
     intervalMsec := intervalMsec s; maxBatchSize := maxBatchSize s |}.

Definition withIntervalId (s : BufferedEventStream) (i : option TimerId)
    : BufferedEventStream :=
  {| sessionId := sessionId s; targets := targets s; garden := garden s;
     workflowRunUid := workflowRunUid s;
     gardenEventListeners := gardenEventListeners s;
     intervalId := i; bufferedEvents := bufferedEvents s;
     bufferedLogEntries := bufferedLogEntries s;
     intervalMsec := intervalMsec s; maxBatchSize := maxBatchSize s |}.

(** The outcome of an asynchronous send: the requests issued, in order,
    and whether the returned promise is rejected. *)
Record Sent := {
  attempts : list Api.Post;
  rejected : bool;
}.

Definition nothingSent : Sent := {| attempts := []; rejected := false |}.

(** [Bluebird.all([a, b])]: both sends were started; rejected when either is. *)
Definition both (a b : Sent) : Sent :=
  {| attempts := attempts a ++ attempts b;
     rejected := rejected a || rejected b |}.

Section WithEnvironment.

(** [eventNames] ([events.ts]) and [gardenEnv.GARDEN_WORKFLOW_RUN_UID]
    ([constants.ts]) are constants defined outside the sources. *)
Variable eventNames : list EventName.
Variable GARDEN_WORKFLOW_RUN_UID : option string.

(** The remote end: [gotPost p] tells whether the request [p] is
    answered with success (the promise of [got.post] resolves). *)
Variable gotPost : Api.Post -> bool.

Fixpoint subscribeLoop (names : list EventName) (eventBus : BusId)
    (w : World) (listeners : list (EventName * Listener))
    : World * list (EventName * Listener) :=
  match names with
  | [] => (w, listeners)
  | gardenEventName :: names' =>
      let listener := StreamEventListener (nextClosure w) gardenEventName in
      subscribeLoop names' eventBus
        {| buses := Bus.update (on gardenEventName listener) eventBus (buses w);
           timers := timers w; nextTimer := nextTimer w;
           nextClosure := S (nextClosure w) |}
        (objSet gardenEventName listener listeners)
  end.

Definition withListeners (s : BufferedEventStream)
    (ls : list (EventName * Listener)) : BufferedEventStream :=
  {| sessionId := sessionId s; targets := targets s; garden := garden s;
     workflowRunUid := workflowRunUid s; gardenEventListeners := ls;
     intervalId := intervalId s; bufferedEvents := bufferedEvents s;
     bufferedLogEntries := bufferedLogEntries s;
     intervalMsec := intervalMsec s; maxBatchSize := maxBatchSize s |}.

Definition subscribeToGardenEvents (w : World) (s : BufferedEventStream)
    (eventBus : BusId) : World * BufferedEventStream :=
  let '(w', ls) := subscribeLoop eventNames eventBus w [] in
  (w', withListeners s ls).

Definition unsubscribeFromGardenEvents (w : World) (s : BufferedEventStream)
    (eventBus : BusId) : World :=
  fold_left
    (fun w' nl =>
       withBuses w' (Bus.update (removeListener (fst nl) (snd nl)) eventBus (buses w')))
    (gardenEventListeners s) w.

Definition startInterval (w : World) (s : BufferedEventStream)
    : World * BufferedEventStream :=
  let '(w', t) := setInterval w in (w', withIntervalId s (Some t)).

(** [connect({ garden, targets })]; [newTargets = None] when the
    parameter is left out. *)
Definition connect (w : World) (s : BufferedEventStream)
    (g : Gdn.Garden) (newTargets : option (list Api.StreamTarget))
    : World * BufferedEventStream :=
  let w1 :=
    match intervalId s with
    | Some t => clearInterval w t
    | None => w
    end in
  let s1 :=
    {| sessionId := sessionId s;
       targets := match newTargets with Some ts => ts | None => targets s end;
       garden := garden s; workflowRunUid := workflowRunUid s;
       gardenEventListeners := gardenEventListeners s;
       intervalId := intervalId s; bufferedEvents := bufferedEvents s;
       bufferedLogEntries := bufferedLogEntries s;
       intervalMsec := intervalMsec s; maxBatchSize := maxBatchSize s |} in
  let w2 :=
    match garden s1 with
    | Some old => unsubscribeFromGardenEvents w1 s1 (Gdn.events old)
    | None => w1
    end in
  let s2 :=
    {| sessionId := sessionId s1; targets := targets s1; garden := Some g;
       workflowRunUid := workflowRunUid s1;
       gardenEventListeners := gardenEventListeners s1;
       intervalId := intervalId s1; bufferedEvents := bufferedEvents s1;
       bufferedLogEntries := bufferedLogEntries s1;
       intervalMsec := intervalMsec s1; maxBatchSize := maxBatchSize s1 |} in
  let '(w3, s3) := subscribeToGardenEvents w2 s2 (Gdn.events g) in
  startInterval w3 s3.

Definition getWorkflowRunUid (s : BufferedEventStream) : option string :=
  Js.or GARDEN_WORKFLOW_RUN_UID (workflowRunUid s).

(** [postToTargets(description, path, data)]: one request per target;
    [Bluebird.map] rejects when a request fails. *)
Definition postToTargets (s : BufferedEventStream) (path : string)
    (data : Api.Data) : Sent :=
  let posts :=
    map (fun t =>
           {| Api.target := t; Api.path := path;
              Api.url := Api.host t +:+ "/" +:+ path;
              Api.headers := Api.clientAuthToken t;
              Api.json := data |})
        (targets s) in
  {| attempts := posts; rejected := existsb (fun p => negb (gotPost p)) posts |}.

(** [flushEvents(events)].  Reading [this.garden.projectId] with no
    garden throws, which rejects the promise. *)
Definition flushEvents (s : BufferedEventStream) (events : list Api.StreamEvent) : Sent :=
  match events with
  | [] => nothingSent
  | _ =>
      match garden s with
      | None => {| attempts := []; rejected := true |}
      | Some g =>
          postToTargets s "events"
            (Api.EventData
               {| Api.eventBase :=
                    {| Api.workflowRunUid := getWorkflowRunUid s;
                       Api.sessionId := sessionId s;
                       Api.projectUid := Js.or (Gdn.projectId g) None |};
                  Api.events := events;
                  Api.environment := Gdn.environmentName g;
                  Api.namespace := Gdn.namespace g |})
      end
  end.

Definition flushLogEntries (s : BufferedEventStream)
    (logEntries : list Api.LogEntryEvent) : Sent :=
  match logEntries, garden s with
  | [], _ | _, None => nothingSent
  | _, Some g =>
      postToTargets s "log-entries"
        (Api.LogData
           {| Api.logBase :=
                {| Api.workflowRunUid := getWorkflowRunUid s;
                   Api.sessionId := sessionId s;
                   Api.projectUid := Js.or (Gdn.projectId g) None |};
              Api.logEntries := logEntries |})
  end.

(** [flushBuffered({ flushAll })] *)
Definition flushBuffered (s : BufferedEventStream) (flushAll : bool)
    : BufferedEventStream * Sent :=
  match garden s, targets s with
  | None, _ | _, [] => (s, nothingSent)
  | Some _, _ :: _ =>
      let '(eventsToFlush, events') :=
        Js.splice 0
          (if flushAll then Z.of_nat (length (bufferedEvents s)) else maxBatchSize s)
          (bufferedEvents s) in
      let logEntryFlushCount :=
        if flushAll then Z.of_nat (length (bufferedLogEntries s))
        else (maxBatchSize s - Z.of_nat (length (bufferedLogEntries s)))%Z in
      let '(logEntriesToFlush, logEntries') :=
        Js.splice 0 logEntryFlushCount (bufferedLogEntries s) in
      let s' := withBuffers s events' logEntries' in
      (s', both (flushEvents s' eventsToFlush) (flushLogEntries s' logEntriesToFlush))
  end.

(** [close()]: the rejection of the final flush is caught and logged. *)
Definition close (w : World) (s : BufferedEventStream)
    : World * BufferedEventStream * Sent :=
  let '(w1, s1) :=
    match intervalId s with
    | Some t => (clearInterval w t, withIntervalId s None)
    | None => (w, s)
    end in
  let '(s2, sent) := flushBuffered s1 true in
  (w1, s2, sent).

(** The calls the stream receives, and a run of them.  [Fire t] is the
    interval timer [t] going off: if it is still scheduled its callback
    runs [flushBuffered({ flushAll: false })]. *)
Inductive Call :=
| Connect (g : Gdn.Garden) (newTargets : option (list Api.StreamTarget))
| StreamEvent (name : EventName) (payload : Js.Value) (now : Api.Date)
| StreamLogEntry (logEntry : Api.LogEntryEvent)
| Fire (t : TimerId)
| Close.

Record Process := {
  world : World;
  stream : BufferedEventStream;
  network : list Api.Post;
}.

Definition step (p : Process) (c : Call) : Process :=
  match c with
  | Connect g ts =>
      let '(w, s) := connect (world p) (stream p) g ts in
      {| world := w; stream := s; network := network p |}
  | StreamEvent n pl now =>
      {| world := world p; stream := streamEvent (stream p) n pl now;
         network := network p |}
  | StreamLogEntry e =>
      {| world := world p; stream := streamLogEntry (stream p) e;
         network := network p |}
  | Fire t =>
      if bool_decide (t ∈ timers (world p)) then
        let '(s, sent) := flushBuffered (stream p) false in
        {| world := world p; stream := s;
           network := network p ++ attempts sent |}
      else p
  | Close =>
      let '(w, s, sent) := close (world p) (stream p) in
      {| world := w; stream := s; network := network p ++ attempts sent |}
  end.

Definition run (p : Process) (cs : list Call) : Process :=
  fold_left step cs p.

End WithEnvironment.

End Stream.

(* ===================================================================== *)
(** ** [GardenServer] *)
(* ===================================================================== *)

Module Server.

Import Bus.

Definition notReadyMessage : string := "Waiting for Garden instance to initialize".

(** [CommandResult]: the fields the server passes on. *)
Record CommandResult := {
  result : Js.Value;
  errors : option Js.Value;
}.

(** How the promise of [resolveRequest] settles. *)
Inductive Settled :=
| Resolved (r : CommandResult)
| Rejected (message : string).

(** [ServerWebsocketMessages], by [type]. *)
Inductive ServerWebsocketMessage :=
| commandResult (requestId : Js.Value) (r : Js.Value) (errs : option Js.Value)
| error (requestId : option Js.Value) (message : string)
| event (name : Js.Value) (payload : Js.Value).

Inductive Body :=
| Text (s : string)
| Json (r : CommandResult).

(** What a route handler leaves in [ctx], or that it threw. *)
Inductive HttpResult :=
| Respond (status : Z) (body : option Body)
| Threw.

(** Uses of the attached [Garden] instance by a handler. *)
Inductive Access :=
| AnalyticsInit (g : Gdn.Garden)
| TrackApi (body : Js.Value)
| ResolveRequest (g : Gdn.Garden) (request : Js.Value).

Record GardenServer := {
  garden : option Gdn.Garden;
  analytics : bool;
  incomingEvents : BusId;
  authKey : string;
  port : option Z;
  middleware : list (string * string);
}.

Record Socket := {
  isOpen : bool;
  outbox : list ServerWebsocketMessage;
}.

(** The buses and the websockets, both shared by reference, and the
    record of what was published on which bus. *)
Record World := {
  buses : gmap BusId EventBus;
  sockets : gmap nat Socket;
  published : list (BusId * Js.Value * Js.Value);
}.

Definition withBuses (w : World) (h : gmap BusId EventBus) : World :=
  {| buses := h; sockets := sockets w; published := published w |}.

(** [constructor({ log, port })]: [key] is [randomString(64)] and
    [inbound] the new [EventBus]. *)
Definition new (key : string) (inbound : BusId) (p : option Z) : GardenServer :=
  {| garden := None; analytics := false; incomingEvents := inbound;
     authKey := key; port := p; middleware := [] |}.

(** [websocket.send(JSON.stringify({ type, ...payload }), cb)]: on a
    socket that is not open the message is not sent (the callback logs the
    error). *)
Definition send (w : World) (conn : nat) (m : ServerWebsocketMessage) : World :=
  match sockets w !! conn with
  | Some sk =>
      if isOpen sk then
        {| buses := buses w;
           sockets := <[conn := {| isOpen := true; outbox := outbox sk ++ [m] |}]> (sockets w);
           published := published w |}
      else w
  | None => w
  end.

(** A listener being called with [(name, payload)].  Only the socket
    listeners act on the state kept here: [serversUpdatedListener] rewrites
    the status log line, the stream's listeners fill the stream's
    buffers. *)
Definition invoke (name payload : Js.Value) (w : World) (l : Listener) : World :=
  match l with
  | SocketEventListener conn => send w conn (event name payload)
  | _ => w
  end.

Definition listenersOf (name : Js.Value) (b : EventBus) : list Listener :=
  match name with
  | Js.Str n => listenersFor n b
  | _ => anys b
  end.

(** [bus.emit(name, payload)] *)
Definition emit (w : World) (bus : BusId) (name payload : Js.Value) : World :=
  fold_left (invoke name payload)
    (listenersOf name (Bus.at_ (buses w) bus))
    {| buses := buses w; sockets := sockets w;
       published := published w ++ [(bus, name, payload)] |}.

(** [setGarden(garden)], on a started server ([this.app] exists). *)
Definition setGarden (srv : GardenServer) (w : World) (g : Gdn.Garden)
    : GardenServer * World :=
  let w1 :=
    match garden srv with
    | Some old =>
        withBuses w
          (Bus.update (removeListener "serversUpdated" ServersUpdatedListener)
             (Gdn.events old) (buses w))
    | None => w
    end in
  ({| garden := Some g; analytics := analytics srv;
      incomingEvents := incomingEvents srv; authKey := authKey srv;
      port := port srv;
      middleware := middleware srv ++ [("/artifacts", Gdn.artifactsPath g)] |},
   withBuses w1
     (Bus.update (on "serversUpdated" ServersUpdatedListener) (Gdn.events g) (buses w1))).

(** [notReady(ctx)] *)
Definition notReady : HttpResult := Respond 503 (Some (Text notReadyMessage)).

(** The [forEach] of the [/events] handler: [e.name] and [e.payload] are
    read, then emitted; a throw leaves the earlier emits done. *)
Fixpoint forEachEmit (w : World) (bus : BusId) (items : list Js.Value)
    : World * bool :=
  match items with
  | [] => (w, true)
  | e :: items' =>
      match Js.get e "name", Js.get e "payload" with
      | Js.Normal n, Js.Normal p => forEachEmit (emit w bus n p) bus items'
      | _, _ => (w, false)
      end
  end.

(** The handler of [POST /events]; [authHeader] is
    [ctx.header[authTokenHeader]], [body] is [ctx.request.body]. *)
Definition postEvents (srv : GardenServer) (w : World)
    (authHeader : option string) (body : Js.Value) : World * HttpResult :=
  if bool_decide (authHeader ≠ Some (authKey srv)) then (w, Respond 401 None)
  else
    match Js.get body "events" with
    | Js.TypeError => (w, Threw)
    | Js.Normal events =>
        match Js.get events "length" with
        | Js.TypeError => (w, Threw)
        | Js.Normal _ =>
            match events with
            | Js.Arr items =>
                let '(w', ok) := forEachEmit w (incomingEvents srv) items in
                (w', if ok then Respond 200 None else Threw)
            | _ => (w, Threw)
            end
        end
    end.

(** What reaches a started server: a call of [setGarden], a client on
    [GET /ws], the ["close"] and ["message"] events of a websocket, the two
    [POST] routes, and a publish on some event bus. *)
Inductive Incoming :=
| SetGarden (g : Gdn.Garden)
| WsConnect (conn : nat)
| WsClose (conn : nat)
| WsMessage (conn : nat) (msg : string)
| PostApi (body : Js.Value)
| PostEvents (authHeader : option string) (body : Js.Value)
| Emit (bus : BusId) (name payload : Js.Value).

(** The server, what it shares with others, and the uses it has made of
    a garden so far. *)
Record Running := {
  server : GardenServer;
  world : World;
  uses : list Access;
}.

(** Whether the ["close"] and ["message"] events of connection [conn] have
    a handler.  Both handlers are registered by the [/ws] route, after its
    [notReady] return and next to the socket's event listener, so they
    exist for the sockets of the world that are still open; a connection
    the route has answered [notReady] has none, and what the client then
    sends on it is dropped. *)
Definition handles (w : World) (conn : nat) : bool :=
  match sockets w !! conn with
  | Some sk => isOpen sk
  | None => false
  end.

Section WithCollaborators.

(** Outside the sources: the command resolver, the analytics handler,
    [JSON.parse] ([None] when it throws) and joi's UUID test. *)
Variable resolveRequest : Gdn.Garden -> Js.Value -> Settled.
Variable analyticsInit : Gdn.Garden -> bool.
Variable jsonParse : string -> option Js.Value.
Variable isUuid : string -> bool.

(** The handler of [POST /api]. *)
Definition postApi (srv : GardenServer) (body : Js.Value)
    : GardenServer * HttpResult * list Access :=
  match garden srv with
  | None => (srv, notReady, [])
  | Some g =>
      let ready :=
        {| garden := garden srv; analytics := true;
           incomingEvents := incomingEvents srv; authKey := authKey srv;
           port := port srv; middleware := middleware srv |} in
      let init := if analytics srv then [] else [AnalyticsInit g] in
      if negb (analytics srv) && negb (analyticsInit g) then (srv, Threw, init)
      else
        match resolveRequest g body with
        | Resolved r =>
            (ready, Respond 200 (Some (Json r)),
             init ++ [TrackApi body; ResolveRequest g body])
        | Rejected _ =>
            (ready, Threw, init ++ [TrackApi body; ResolveRequest g body])
        end
  end.

(** [GET /ws]: a new connection [conn]. *)
Definition wsConnect (srv : GardenServer) (w : World) (conn : nat)
    : World * option HttpResult :=
  match garden srv with
  | None => (w, Some notReady)
  | Some g =>
      let h1 := Bus.update (onAny (SocketEventListener conn)) (Gdn.events g) (buses w) in
      let h2 := Bus.update (onAny (SocketEventListener conn)) (incomingEvents srv) h1 in
      ({| buses := h2;
          sockets := <[conn := {| isOpen := true; outbox := [] |}]> (sockets w);
          published := published w |}, None)
  end.

(** [websocket.on("close", ...)] *)
Definition wsClose (srv : GardenServer) (w : World) (conn : nat) : World :=
  let h1 :=
    match garden srv with
    | Some g => Bus.update (offAny (SocketEventListener conn)) (Gdn.events g) (buses w)
    | None => buses w
    end in
  let h2 := Bus.update (offAny (SocketEventListener conn)) (incomingEvents srv) h1 in
  {| buses := h2;
     sockets :=
       match sockets w !! conn with
       | Some sk => <[conn := {| isOpen := false; outbox := outbox sk |}]> (sockets w)
       | None => sockets w
       end;
     published := published w |}.

(** [joi.string().uuid().required()] and [joi.string().required()] *)
Definition validId (v : Js.Value) : bool :=
  match v with
  | Js.Str s => isUuid s
  | _ => false
  end.

Definition validType (v : Js.Value) : bool :=
  match v with
  | Js.Str s => negb (String.eqb s "")
  | _ => false
  end.

Definition typeText (v : Js.Value) : string :=
  match v with
  | Js.Str s => s
  | _ => ""
  end.

(** [websocket.on("message", ...)] on connection [conn]. *)
Definition wsMessage (srv : GardenServer) (w : World) (conn : nat) (msg : string)
    : Js.Completion (World * list Access) :=
  match jsonParse msg with
  | None =>
      Js.Normal (send w conn (error None "Could not parse message as JSON"), [])
  | Some request =>
      match Js.get request "id", Js.get request "type" with
      | Js.Normal requestId, Js.Normal ty =>
          if negb (validId requestId) then
            Js.Normal
              (send w conn
                 (error None "Message should contain an `id` field with a UUID value"), [])
          else if negb (validType ty) then
            Js.Normal (send w conn (error None "Message should contain a type field"), [])
          else if String.eqb (typeText ty) "command" then
            match garden srv with
            | None =>
                Js.Normal (send w conn (error (Some requestId) notReadyMessage), [])
            | Some g =>
                let command := Js.omit request ["id"; "type"] in
                match resolveRequest g command with
                | Resolved r =>
                    Js.Normal
                      (send w conn (commandResult requestId (result r) (errors r)),
                       [ResolveRequest g command])
                | Rejected m =>
                    Js.Normal
                      (send w conn (error (Some requestId) m),
                       [ResolveRequest g command])
                end
            end
          else
            Js.Normal
              (send w conn
                 (error (Some requestId)
                    ("Unsupported request type: " +:+ typeText ty)), [])
      | _, _ => Js.TypeError
      end
  end.

(** The server taking one thing that reaches it; a handler that throws
    leaves the state as it was. *)
Definition step (st : Running) (r : Incoming) : Running :=
  match r with
  | SetGarden g =>
      let '(srv', w') := setGarden (server st) (world st) g in
      {| server := srv'; world := w'; uses := uses st |}
  | WsConnect conn =>
      {| server := server st;
         world := fst (wsConnect (server st) (world st) conn);
         uses := uses st |}
  | WsClose conn =>
      if handles (world st) conn then
        {| server := server st; world := wsClose (server st) (world st) conn;
           uses := uses st |}
      else st
  | WsMessage conn msg =>
      if handles (world st) conn then
        match wsMessage (server st) (world st) conn msg with
        | Js.Normal (w', acc) =>
            {| server := server st; world := w'; uses := uses st ++ acc |}
        | Js.TypeError => st
        end
      else st
  | PostApi body =>
      let '(srv', _, acc) := postApi (server st) body in
      {| server := srv'; world := world st; uses := uses st ++ acc |}
  | PostEvents authHeader body =>
      {| server := server st;
         world := fst (postEvents (server st) (world st) authHeader body);
         uses := uses st |}
  | Emit bus name payload =>
      {| server := server st; world := emit (world st) bus name payload;
         uses := uses st |}
  end.


End WithCollaborators.

(** An entry of the [servers] list of a ["serversUpdated"] payload, and the
    state [statusLog.setState] is given. *)
Record ServerInfo := {
  host : string;
  command : string;
}.

Record LogState := {
  emoji : string;
  msg : string;
}.

(** [`${this.port}`] *)
Definition portText (p : option Z) : string :=
  match p with
  | Some n => NilZero.string_of_int (Z.to_int n)
  | None => "undefined"
  end.

(** [getUrl()] *)
Definition getUrl (srv : GardenServer) : string :=
  "http://localhost:" +:+ portText (port srv).

Section WithChalk.

(** [chalk.cyan], outside the sources. *)
Variable cyan : string -> string.

(** [showUrl(url?)]: the state the status line is set to. *)
Definition showUrl (srv : GardenServer) (url : option string) : LogState :=
  {| emoji := "sunflower";
     msg := cyan "Garden dashboard running at " +:+
            (if Js.truthy url then match url with Some u => u | None => "" end
             else getUrl srv) |}.

(** [serversUpdatedListener({ servers })] *)
Fixpoint serversUpdatedListener (srv : GardenServer) (servers : list ServerInfo)
    : LogState :=
  match servers with
  | [] => showUrl srv (Some (getUrl srv))
  | sv :: servers' =>
      if String.eqb (command sv) "dashboard" then showUrl srv (Some (host sv))
      else serversUpdatedListener srv servers'
  end.

End WithChalk.

End Server.

(* ===================================================================== *)
(** ** Observations used in the statements *)
(* ===================================================================== *)

Module Obs.

Import Bus.

(** The requests of a send, by endpoint. *)
Definition isEventPost (p : Api.Post) : bool :=
  match Api.json p with Api.EventData _ => true | Api.LogData _ => false end.

Definition isLogPost (p : Api.Post) : bool :=
  match Api.json p with Api.EventData _ => false | Api.LogData _ => true end.

Definition eventPosts (ps : list Api.Post) : list Api.Post := List.filter isEventPost ps.
Definition logPosts (ps : list Api.Post) : list Api.Post := List.filter isLogPost ps.

Definition eventsOf (p : Api.Post) : list Api.StreamEvent :=
  match Api.json p with Api.EventData b => Api.events b | Api.LogData _ => [] end.

Definition logEntriesOf (p : Api.Post) : list Api.LogEntryEvent :=
  match Api.json p with Api.EventData _ => [] | Api.LogData b => Api.logEntries b end.

(** The [workflowRunUid] correlation field of the batch a request carries. *)
Definition uidOf (p : Api.Post) : option string :=
  Api.workflowRunUid (Api.base (Api.json p)).

(** The targets a list of items goes to: all of them, or none when there
    is nothing to send. *)
Definition addressees {A} (items : list A) (ts : list Api.StreamTarget)
    : list Api.StreamTarget :=
  match items with [] => [] | _ => ts end.

(** Registrations of the stream's own event listeners on a bus. *)
Definition isStreamReg (nl : EventName * Listener) : bool :=
  match snd nl with StreamEventListener _ _ => true | _ => false end.

Definition streamRegs (b : EventBus) : list (EventName * Listener) :=
  List.filter isStreamReg (named b).

Definition regCount (name : EventName) (b : EventBus) : nat :=
  length (List.filter (fun nl => String.eqb (fst nl) name) (streamRegs b)).

(** The registrations [subscribeToGardenEvents] makes for [names] when
    the next closure is number [c]. *)
Fixpoint closuresFrom (c : nat) (names : list EventName) : list (EventName * Listener) :=
  match names with
  | [] => []
  | n :: names' => (n, StreamEventListener c n) :: closuresFrom (S c) names'
  end.

(** What holds of a stream and its world between calls: the scheduled
    timers are those of the rest of the process ([others]) and the
    stream's current one; the stream's listeners are registered on the bus
    of the connected garden only, and are the ones in its listener map,
    one per event name. *)
Record Connected (eventNames : list EventName) (others : list Stream.TimerId)
    (w : Stream.World) (s : Stream.BufferedEventStream) : Prop := {
  timers_are : Stream.timers w = others ++
                 match Stream.intervalId s with Some t => [t] | None => [] end;
  timers_distinct : NoDup (Stream.timers w);
  timers_numbered : Forall (fun t => t < Stream.nextTimer w) (Stream.timers w);
  registrations_are : forall b,
    streamRegs (Bus.at_ (Stream.buses w) b) =
      match Stream.garden s with
      | Some g => if decide (b = Gdn.events g) then Stream.gardenEventListeners s else []
      | None => []
      end;
  registrations_names :
    Stream.garden s <> None -> map fst (Stream.gardenEventListeners s) = eventNames;
}.

(** Calls other than the delivery of a control event. *)
Definition noControl (c : Stream.Call) : bool :=
  match c with
  | Stream.StreamEvent n _ _ => negb (Stream.isControlEvent n)
  | _ => true
  end.

Definition connects (cs : list (Gdn.Garden * option (list Api.StreamTarget)))
    : list Stream.Call :=
  map (fun c => Stream.Connect (fst c) (snd c)) cs.

(** A freshly constructed stream in the world [w]. *)
Definition fresh (w : Stream.World) (logEvents : BusId) (sid : string) : Stream.Process :=
  {| Stream.world := fst (Stream.new w logEvents sid);
     Stream.stream := snd (Stream.new w logEvents sid);
     Stream.network := [] |}.

(** The number of items [flushBuffered] takes from each buffer: the
    [deleteCount] of its [splice], clamped as [splice] does. *)
Definition eventTake (s : Stream.BufferedEventStream) (flushAll : bool) : nat :=
  Z.to_nat (Z.min
    (Z.max (if flushAll then Z.of_nat (length (Stream.bufferedEvents s))
            else Stream.maxBatchSize s) 0)
    (Z.of_nat (length (Stream.bufferedEvents s)))).

Definition logTake (s : Stream.BufferedEventStream) (flushAll : bool) : nat :=
  Z.to_nat (Z.min
    (Z.max (if flushAll then Z.of_nat (length (Stream.bufferedLogEntries s))
            else Stream.maxBatchSize s - Z.of_nat (length (Stream.bufferedLogEntries s))) 0)
    (Z.of_nat (length (Stream.bufferedLogEntries s)))).

Definition timerOf (s : Stream.BufferedEventStream) : list Stream.TimerId :=
  match Stream.intervalId s with Some t => [t] | None => [] end.

Definition nullish (v : Js.Value) : bool :=
  match v with Js.Undefined | Js.Null => true | _ => false end.

(** [e.k] of a value that is neither [null] nor [undefined]. *)
Definition field (k : string) (e : Js.Value) : Js.Value :=
  match Js.get e k with Js.Normal v => v | Js.TypeError => Js.Undefined end.

(** The events and the log entries that a list of calls hands to the
    stream for buffering, in call order. *)
Definition streamedEvents (cs : list Stream.Call) : list Api.StreamEvent :=
  flat_map
    (fun c =>
       match c with
       | Stream.StreamEvent n pl now =>
           if Stream.isControlEvent n then []
           else [{| Api.name := n; Api.payload := pl; Api.timestamp := now |}]
       | _ => []
       end) cs.

Definition streamedLogEntries (cs : list Stream.Call) : list Api.LogEntryEvent :=
  flat_map
    (fun c => match c with Stream.StreamLogEntry e => [e] | _ => [] end) cs.

(** Calls that are no flush: neither a timer going off nor [close()]. *)
Definition noFlush (c : Stream.Call) : bool :=
  match c with
  | Stream.Fire _ | Stream.Close => false
  | _ => true
  end.

Definition noClose (c : Stream.Call) : bool :=
  match c with
  | Stream.Close => false
  | _ => true
  end.

(** Calls that give the stream no target. *)
Definition noTarget (c : Stream.Call) : bool :=
  match c with
  | Stream.Connect _ (Some (_ :: _)) => false
  | _ => true
  end.

(** The batch of a request has at least one item. *)
Definition nonEmptyBatch (p : Api.Post) : bool :=
  match Api.json p with
  | Api.EventData b => negb (bool_decide (Api.events b = []))
  | Api.LogData b => negb (bool_decide (Api.logEntries b = []))
  end.

(** No event of the list has a control-event name. *)
Definition noControlEvents (evs : list Api.StreamEvent) : Prop :=
  Forall (fun e => Stream.isControlEvent (Api.name e) = false) evs.

Definition sessionOf (p : Api.Post) : string :=
  Api.sessionId (Api.base (Api.json p)).

(** The [streamEvent] calls (by event name) that publishing [name] on the
    bus [b] makes: one per registered listener of the stream, each with
    the name its closure holds. *)
Definition streamCalls (ls : list Listener) : list Bus.EventName :=
  flat_map (fun l => match l with StreamEventListener _ n => [n] | _ => [] end) ls.

Definition streamEventCalls (name : Bus.EventName) (b : EventBus) : list Bus.EventName :=
  streamCalls (listenersFor name b).

Definition isStreamListener (l : Listener) : bool :=
  match l with StreamEventListener _ _ => true | _ => false end.

(** The number of times the listener of connection [conn] is called by a
    publish of [name] on the bus [b]. *)
Definition socketCalls (conn : nat) (name : Js.Value) (b : EventBus) : nat :=
  length (List.filter (fun l => bool_decide (l = SocketEventListener conn))
            (Server.listenersOf name b)).

(** Registrations of the listener of connection [conn] on a bus. *)
Definition socketRegs (conn : nat) (b : EventBus) : nat :=
  length (List.filter (fun l => bool_decide (l = SocketEventListener conn)) (anys b))
  + length (List.filter (fun nl => bool_decide (snd nl = SocketEventListener conn))
              (named b)).

(** Registrations of [serversUpdatedListener] on a bus. *)
Definition serversUpdatedRegs (b : EventBus) : nat :=
  length (List.filter
            (fun nl => bool_decide (nl = ("serversUpdated", ServersUpdatedListener)))
            (named b)).

(** [setGarden] called with each garden of a list in turn. *)
Definition setGardens (srv : Server.GardenServer) (w : Server.World)
    (gs : list Gdn.Garden) : Server.GardenServer * Server.World :=
  fold_left (fun sw g => Server.setGarden (fst sw) (snd sw) g) gs (srv, w).

(** New connections, one after the other. *)
Definition wsConnects (srv : Server.GardenServer) (w : Server.World)
    (conns : list nat) : Server.World :=
  fold_left (fun w' c => fst (Server.wsConnect srv w' c)) conns w.

(** [POST /api] requests, one after the other: the server afterwards and
    the uses of the garden each request made. *)
Fixpoint postApis (resolveRequest : Gdn.Garden -> Js.Value -> Server.Settled)
    (analyticsInit : Gdn.Garden -> bool) (srv : Server.GardenServer)
    (bodies : list Js.Value) : Server.GardenServer * list (list Server.Access) :=
  match bodies with
  | [] => (srv, [])
  | body :: bodies' =>
      let '(srv', _, acc) := Server.postApi resolveRequest analyticsInit srv body in
      let '(srv'', accs) := postApis resolveRequest analyticsInit srv' bodies' in
      (srv'', acc :: accs)
  end.







(** The mounts [setGarden] adds for a list of gardens. *)
Definition artifactMounts (gs : list Gdn.Garden) : list (string * string) :=
  map (fun g => ("/artifacts", Gdn.artifactsPath g)) gs.

(** The message a socket is sent for an event. *)
Definition eventMessage (e : Js.Value) : Server.ServerWebsocketMessage :=
  Server.event (field "name" e) (field "payload" e).

(** The first entry of a [servers] list that is a dashboard. *)
Definition firstDashboard (servers : list Server.ServerInfo) : option Server.ServerInfo :=
  List.find (fun sv => String.eqb (Server.command sv) "dashboard") servers.

End Obs.

(* ===================================================================== *)
(** ** Sample inputs *)
(* ===================================================================== *)

Module Sample.

Definition world0 : Stream.World :=
  {| Stream.buses := ∅; Stream.timers := []; Stream.nextTimer := 0;
     Stream.nextClosure := 0 |}.

Definition logBus : Bus.BusId := 0.

Definition gardenA : Gdn.Garden :=
  {| Gdn.events := 1; Gdn.projectId := Some "project-1";
     Gdn.environmentName := "dev"; Gdn.namespace := "default";
     Gdn.artifactsPath := "/a/.garden/artifacts" |}.

Definition gardenB : Gdn.Garden :=
  {| Gdn.events := 2; Gdn.projectId := Some "project-1";
     Gdn.environmentName := "dev"; Gdn.namespace := "default";
     Gdn.artifactsPath := "/b/.garden/artifacts" |}.

Definition target : Api.StreamTarget :=
  {| Api.host := "https://enterprise.example"; Api.clientAuthToken := "token" |}.

Definition eventNames : list Bus.EventName :=
  ["_workflowRunRegistered"; "taskComplete"; "serversUpdated"].

Definition entry (i : nat) : Api.LogEntryEvent :=
  {| Api.key := "line"; Api.parentKey := None; Api.revision := Z.of_nat i;
     Api.msg := inl "hello"; Api.le_timestamp := 0%Z; Api.level := 2%Z;
     Api.data := None; Api.section := None; Api.metadata := None |}.

Definition accepts (p : Api.Post) : bool := true.
Definition refuses (p : Api.Post) : bool := false.

Definition registered (uid : string) : Js.Value :=
  Js.Obj [("workflowRunUid", Js.Str uid)].

(** A connected stream with one target and sixty buffered log entries,
    when its timer goes off. *)
Definition sixtyLogEntries : Stream.Process :=
  Stream.run eventNames None accepts (Obs.fresh world0 logBus "session")
    (Stream.Connect gardenA (Some [target])
       :: map (fun i => Stream.StreamLogEntry (entry i)) (seq 0 60)
       ++ [Stream.Fire 0]).


(** A connected stream with one target, one buffered event and two
    buffered log entries. *)
Definition connected : Stream.Process :=
  Stream.run eventNames None accepts (Obs.fresh world0 logBus "session")
    [Stream.Connect gardenA (Some [target]);
     Stream.StreamEvent "taskComplete" (Js.Obj []) 5%Z;
     Stream.StreamLogEntry (entry 0);
     Stream.StreamLogEntry (entry 1)].

(** A connected stream with one target, which fails, and one buffered
    event. *)
Definition oneEvent : Stream.Process :=
  Stream.run eventNames None refuses (Obs.fresh world0 logBus "session")
    [Stream.Connect gardenA (Some [target]);
     Stream.StreamEvent "taskComplete" (Js.Obj []) 5%Z].

(** A connected stream with one target and a hundred buffered log
    entries, as many as [maxBatchSize]. *)
Definition backlog : Stream.Process :=
  Stream.run eventNames None accepts (Obs.fresh world0 logBus "session")
    (Stream.Connect gardenA (Some [target])
       :: map (fun i => Stream.StreamLogEntry (entry i)) (seq 0 100)).

(** A run under [GARDEN_WORKFLOW_RUN_UID=env-run] in which a workflow run
    is registered before an event is flushed. *)
Definition envWins : Stream.Process :=
  Stream.run eventNames (Some "env-run") accepts (Obs.fresh world0 logBus "session")
    [Stream.Connect gardenA (Some [target]);
     Stream.StreamEvent "_workflowRunRegistered" (registered "ctl-run") 1%Z;
     Stream.StreamEvent "taskComplete" (Js.Obj []) 2%Z;
     Stream.Fire 0].

(** The command server. *)
Definition server0 : Server.GardenServer := Server.new "secret" 0 (Some 9777%Z).

Definition serverWorld0 : Server.World :=
  {| Server.buses := ∅; Server.sockets := ∅; Server.published := [] |}.

Definition resolveRequest (g : Gdn.Garden) (request : Js.Value) : Server.Settled :=
  Server.Resolved {| Server.result := Js.Obj []; Server.errors := None |}.

Definition analyticsInit (g : Gdn.Garden) : bool := true.

Definition analyticsInitFails (g : Gdn.Garden) : bool := false.

Definition cyan (s : string) : string := s.

Definition uuid : string := "6f9619ff-8b86-4d01-b42d-00cf4fc964ff".

Definition isUuid (s : string) : bool := String.eqb s uuid.

Definition commandRequest : Js.Value :=
  Js.Obj [("id", Js.Str uuid); ("type", Js.Str "command"); ("command", Js.Str "get.status")].

Definition jsonParse (msg : string) : option Js.Value :=
  if String.eqb msg "command" then Some commandRequest else None.

Definition taskComplete : Js.Value := Js.Obj [("name", Js.Str "build.api")].

Definition batch : Js.Value :=
  Js.Obj [("events",
           Js.Arr [Js.Obj [("name", Js.Str "taskComplete"); ("payload", taskComplete)];
                   Js.Obj [("name", Js.Str "taskPending"); ("payload", Js.Null)]]);
          ("sessionId", Js.Str "session")].



(** Garden A is attached. *)
Definition afterSetGarden : Server.GardenServer * Server.World :=
  Server.setGarden server0 serverWorld0 gardenA.

(** A batch whose second item is [null]. *)
Definition batchWithNull : Js.Value :=
  Js.Obj [("events",
           Js.Arr [Js.Obj [("name", Js.Str "taskComplete"); ("payload", taskComplete)];
                   Js.Null;
                   Js.Obj [("name", Js.Str "taskPending"); ("payload", Js.Null)]])].

(** Garden A is attached and a socket (connection 7) is open. *)
Definition withSocket : Server.GardenServer * Server.World :=
  let '(srv1, w1) := Server.setGarden server0 serverWorld0 gardenA in
  (srv1, fst (Server.wsConnect srv1 w1 7)).

(** Garden A is attached, a socket connects, then garden B is attached
    and A publishes an event. *)
Definition afterSecondGarden : Server.GardenServer * Server.World :=
  let '(srv1, w1) := Server.setGarden server0 serverWorld0 gardenA in
  let w2 := fst (Server.wsConnect srv1 w1 7) in
  Server.setGarden srv1 w2 gardenB.

End Sample.

(* ===================================================================== *)
(** ** Flushing, closing and the correlation field *)
(* ===================================================================== *)

Module StreamFacts.
Import Bus Stream Obs.

Lemma splice_front {A} (d : Z) (l : list A) :
  Js.splice 0 d l =
    (firstn (Z.to_nat (Z.min (Z.max d 0) (Z.of_nat (length l)))) l,
     skipn (Z.to_nat (Z.min (Z.max d 0) (Z.of_nat (length l)))) l).
Proof.
  unfold Js.splice. cbn [Z.ltb Z.compare].
  replace (Z.min 0 (Z.of_nat (length l))) with 0%Z by lia.
  rewrite Z.sub_0_r. reflexivity.
Qed.

Lemma splice_all {A} (l : list A) :
  Js.splice 0 (Z.of_nat (length l)) l = (l, []).
Proof.
  rewrite splice_front.
  replace (Z.to_nat _) with (length l) by lia.
  by rewrite firstn_all, skipn_all.
Qed.

Lemma splice_parts {A} (d : Z) (l : list A) :
  l = fst (Js.splice 0 d l) ++ snd (Js.splice 0 d l).
Proof. rewrite splice_front. cbn [fst snd]. by rewrite firstn_skipn. Qed.


Lemma filter_all {A} (f : A -> bool) (l : list A) :
  Forall (fun x => f x = true) l -> List.filter f l = l.
Proof.
  induction 1 as [|x l Hx _ IH]; cbn; [done|]. by rewrite Hx, IH.
Qed.

Lemma filter_none {A} (f : A -> bool) (l : list A) :
  Forall (fun x => f x = false) l -> List.filter f l = [].
Proof.
  induction 1 as [|x l Hx _ IH]; cbn; [done|]. by rewrite Hx.
Qed.

Section Flush.

Variable env : option string.
Variable gotPost : Api.Post -> bool.

(** One request per target, all carrying the same data. *)
Lemma postToTargets_targets s path data :
  map Api.target (attempts (postToTargets gotPost s path data)) = targets s.
Proof.
  unfold postToTargets; cbn [attempts].
  rewrite map_map; cbn. apply map_id.
Qed.

Lemma postToTargets_data s path data :
  Forall (fun p => Api.json p = data) (attempts (postToTargets gotPost s path data)).
Proof.
  unfold postToTargets; cbn [attempts].
  apply List.Forall_forall. intros p Hp. apply in_map_iff in Hp.
  destruct Hp as (t & <- & _). reflexivity.
Qed.

Lemma postToTargets_rejected s path data :
  rejected (postToTargets gotPost s path data) =
    existsb (fun p => negb (gotPost p)) (attempts (postToTargets gotPost s path data)).
Proof. reflexivity. Qed.

(** What [flushEvents] sends once a garden is attached. *)
Lemma flushEvents_sends s g evs :
  garden s = Some g ->
  let sent := flushEvents env gotPost s evs in
  map Api.target (attempts sent) = addressees evs (targets s) /\
  Forall (fun p => isEventPost p = true /\ eventsOf p = evs
                   /\ uidOf p = getWorkflowRunUid env s) (attempts sent) /\
  rejected sent = existsb (fun p => negb (gotPost p)) (attempts sent).
Proof.
  intros Hg. unfold flushEvents. rewrite Hg.
  destruct evs as [|e evs]; cbn zeta.
  - repeat split; constructor.
  - split; [exact (postToTargets_targets s _ _)|]. split; [|reflexivity].
    eapply List.Forall_impl; [|apply postToTargets_data].
    intros p Hp. unfold isEventPost, eventsOf, uidOf. rewrite Hp. done.
Qed.

Lemma flushLogEntries_sends s g les :
  garden s = Some g ->
  let sent := flushLogEntries env gotPost s les in
  map Api.target (attempts sent) = addressees les (targets s) /\
  Forall (fun p => isLogPost p = true /\ logEntriesOf p = les
                   /\ uidOf p = getWorkflowRunUid env s) (attempts sent) /\
  rejected sent = existsb (fun p => negb (gotPost p)) (attempts sent).
Proof.
  intros Hg. unfold flushLogEntries. rewrite Hg.
  destruct les as [|e les]; cbn zeta.
  - repeat split; constructor.
  - split; [exact (postToTargets_targets s _ _)|]. split; [|reflexivity].
    eapply List.Forall_impl; [|apply postToTargets_data].
    intros p Hp. unfold isLogPost, logEntriesOf, uidOf. rewrite Hp. done.
Qed.

Lemma flushBuffered_connected s g t ts flushAll :
  garden s = Some g -> targets s = t :: ts ->
  flushBuffered env gotPost s flushAll =
    let s' := withBuffers s (skipn (eventTake s flushAll) (bufferedEvents s))
                (skipn (logTake s flushAll) (bufferedLogEntries s)) in
    (s', both (flushEvents env gotPost s' (firstn (eventTake s flushAll) (bufferedEvents s)))
              (flushLogEntries env gotPost s' (firstn (logTake s flushAll) (bufferedLogEntries s)))).
Proof.
  intros Hg Ht. unfold flushBuffered. rewrite Hg, Ht.
  rewrite !splice_front. reflexivity.
Qed.

Lemma flushBuffered_idle s flushAll :
  garden s = None \/ targets s = [] ->
  flushBuffered env gotPost s flushAll = (s, nothingSent).
Proof.
  unfold flushBuffered. intros [H|H]; rewrite H; [done|].
  by destruct (garden s).
Qed.


(** The requests of a flush, by endpoint. *)
Lemma flush_posts s g evs les :
  garden s = Some g ->
  let sent := both (flushEvents env gotPost s evs) (flushLogEntries env gotPost s les) in
  eventPosts (attempts sent) = attempts (flushEvents env gotPost s evs) /\
  logPosts (attempts sent) = attempts (flushLogEntries env gotPost s les).
Proof.
  intros Hg.
  destruct (flushEvents_sends s g evs Hg) as (_ & He & _).
  destruct (flushLogEntries_sends s g les Hg) as (_ & Hl & _).
  cbn [both attempts]. unfold eventPosts, logPosts.
  rewrite !List.filter_app. split.
  - rewrite filter_all, filter_none, app_nil_r; [done| |].
    + eapply List.Forall_impl; [|exact Hl].
      intros p (Hp & _). unfold isLogPost, isEventPost in *.
      by destruct (Api.json p).
    + eapply List.Forall_impl; [|exact He]. by intros p (Hp & _).
  - rewrite filter_none, filter_all; [done| |].
    + eapply List.Forall_impl; [|exact Hl]. by intros p (Hp & _).
    + eapply List.Forall_impl; [|exact He].
      intros p (Hp & _). unfold isLogPost, isEventPost in *.
      by destruct (Api.json p).
Qed.

(** Every request of a flush carries [getWorkflowRunUid()]. *)
Lemma flushBuffered_uid s flushAll :
  Forall (fun p => uidOf p = getWorkflowRunUid env s)
    (attempts (snd (flushBuffered env gotPost s flushAll))).
Proof.
  destruct (garden s) as [g|] eqn:Hg; cycle 1.
  { rewrite flushBuffered_idle by auto. constructor. }
  destruct (targets s) as [|t ts] eqn:Ht.
  { rewrite flushBuffered_idle by auto. constructor. }
  rewrite (flushBuffered_connected s g t ts) by done.
  cbn [snd both attempts]. apply Forall_app. split.
  - eapply List.Forall_impl;
      [|exact (proj1 (proj2 (flushEvents_sends _ g _ Hg)))].
    by intros p (_ & _ & Hp).
  - eapply List.Forall_impl;
      [|exact (proj1 (proj2 (flushLogEntries_sends _ g _ Hg)))].
    by intros p (_ & _ & Hp).
Qed.

End Flush.

(** What a flush takes and sends: the items taken are the front of each
    buffer, the rest stays; each target is sent one request per non-empty
    batch, carrying the items taken; the flush is rejected when a request
    fails. *)
Lemma flushBuffered_sends (env : option string) (gotPost : Api.Post -> bool)
    (s : BufferedEventStream) (flushAll : bool) :
  let r := flushBuffered env gotPost s flushAll in
  rejected (snd r) = existsb (fun p => negb (gotPost p)) (attempts (snd r)) /\
  exists evs les,
    bufferedEvents s = evs ++ bufferedEvents (fst r) /\
    bufferedLogEntries s = les ++ bufferedLogEntries (fst r) /\
    map Api.target (eventPosts (attempts (snd r))) = addressees evs (targets s) /\
    Forall (fun p => eventsOf p = evs) (eventPosts (attempts (snd r))) /\
    map Api.target (logPosts (attempts (snd r))) = addressees les (targets s) /\
    Forall (fun p => logEntriesOf p = les) (logPosts (attempts (snd r))).
Proof.
  cbn zeta.
  destruct (garden s) as [g|] eqn:Hg; cycle 1.
  { rewrite !flushBuffered_idle by auto. cbn.
    split; [done|]. exists [], []. repeat split; constructor. }
  destruct (targets s) as [|t ts] eqn:Ht.
  { rewrite !flushBuffered_idle by auto. cbn.
    split; [done|]. exists [], []. repeat split; constructor. }
  rewrite !(flushBuffered_connected _ _ s g t ts) by done. cbn zeta.
  set (s' := withBuffers s _ _).
  set (evs := firstn _ (bufferedEvents s)).
  set (les := firstn _ (bufferedLogEntries s)).
  assert (Hg' : garden s' = Some g) by done.
  destruct (flushEvents_sends env gotPost s' g evs Hg') as (Het & Hef & Her).
  destruct (flushLogEntries_sends env gotPost s' g les Hg') as (Hlt & Hlf & Hlr).
  destruct (flush_posts env gotPost s' g evs les Hg') as (Hep & Hlp).
  cbn [fst snd]. split.
  { cbn [both attempts rejected]. by rewrite existsb_app, Her, Hlr. }
  exists evs, les. rewrite Hep, Hlp.
  split; [symmetry; apply firstn_skipn|].
  split; [symmetry; apply firstn_skipn|].
  change (targets s') with (targets s) in Het, Hlt. rewrite Ht in Het, Hlt.
  split; [exact Het|]. split.
  { eapply List.Forall_impl; [|exact Hef]. by intros p (_ & Hp & _). }
  split; [exact Hlt|].
  eapply List.Forall_impl; [|exact Hlf]. by intros p (_ & Hp & _).
Qed.

(** The answers of the targets change neither the state after a flush nor
    the requests it makes. *)
Lemma flushBuffered_before_outcome (env : option string)
    (gotPost gotPost' : Api.Post -> bool) (s : BufferedEventStream) (flushAll : bool) :
  fst (flushBuffered env gotPost s flushAll) = fst (flushBuffered env gotPost' s flushAll) /\
  attempts (snd (flushBuffered env gotPost s flushAll))
    = attempts (snd (flushBuffered env gotPost' s flushAll)).
Proof.
  destruct (garden s) as [g|] eqn:Hg; cycle 1.
  { by rewrite !flushBuffered_idle by auto. }
  destruct (targets s) as [|t ts] eqn:Ht.
  { by rewrite !flushBuffered_idle by auto. }
  rewrite !(flushBuffered_connected _ _ s g t ts) by done. cbn zeta.
  set (s' := withBuffers s _ _).
  assert (Hg' : garden s' = Some g) by done.
  cbn [fst snd both attempts]. split; [done|]. f_equal.
  - unfold flushEvents. rewrite Hg'. by destruct (firstn _ _).
  - unfold flushLogEntries. rewrite Hg'. by destruct (firstn _ _).
Qed.

(** What a flush of a connected stream with a target takes and sends:
    the first [eventTake] events and the first [logTake] log entries leave
    the buffers; the requests are the event requests followed by the log
    requests, one of each per target unless the batch is empty. *)
Lemma flushBuffered_takes (env : option string) (gotPost : Api.Post -> bool)
    (s : BufferedEventStream) (flushAll : bool) :
  garden s <> None -> targets s <> [] ->
  let r := flushBuffered env gotPost s flushAll in
  let evs := firstn (eventTake s flushAll) (bufferedEvents s) in
  let les := firstn (logTake s flushAll) (bufferedLogEntries s) in
  bufferedEvents (fst r) = skipn (eventTake s flushAll) (bufferedEvents s) /\
  bufferedLogEntries (fst r) = skipn (logTake s flushAll) (bufferedLogEntries s) /\
  attempts (snd r) = eventPosts (attempts (snd r)) ++ logPosts (attempts (snd r)) /\
  map Api.target (eventPosts (attempts (snd r))) = addressees evs (targets s) /\
  Forall (fun p => eventsOf p = evs) (eventPosts (attempts (snd r))) /\
  map Api.target (logPosts (attempts (snd r))) = addressees les (targets s) /\
  Forall (fun p => logEntriesOf p = les) (logPosts (attempts (snd r))).
Proof.
  intros Hg Ht. cbn zeta.
  destruct (garden s) as [g|] eqn:Hg'; [clear Hg|done].
  destruct (targets s) as [|t ts] eqn:Ht'; [done|clear Ht].
  rewrite !(flushBuffered_connected _ _ s g t ts) by done. cbn zeta.
  set (s' := withBuffers s _ _).
  set (evs := firstn _ (bufferedEvents s)).
  set (les := firstn _ (bufferedLogEntries s)).
  assert (Hgs : garden s' = Some g) by done.
  destruct (flushEvents_sends env gotPost s' g evs Hgs) as (Het & Hef & _).
  destruct (flushLogEntries_sends env gotPost s' g les Hgs) as (Hlt & Hlf & _).
  destruct (flush_posts env gotPost s' g evs les Hgs) as (Hep & Hlp).
  cbn [fst snd]. rewrite Hep, Hlp.
  change (targets s') with (targets s) in Het, Hlt. rewrite Ht' in Het, Hlt.
  split; [done|]. split; [done|]. split; [done|].
  split; [exact Het|]. split.
  { eapply List.Forall_impl; [|exact Hef]. by intros p (_ & Hp & _). }
  split; [exact Hlt|].
  eapply List.Forall_impl; [|exact Hlf]. by intros p (_ & Hp & _).
Qed.

(** With both buffers empty a flush makes no request. *)
Lemma flushBuffered_nothing (env : option string) (gotPost : Api.Post -> bool)
    (s : BufferedEventStream) (flushAll : bool) :
  bufferedEvents s = [] -> bufferedLogEntries s = [] ->
  attempts (snd (flushBuffered env gotPost s flushAll)) = [].
Proof.
  intros He Hl.
  destruct (garden s) as [g|] eqn:Hg; cycle 1.
  { by rewrite flushBuffered_idle by auto. }
  destruct (targets s) as [|t ts] eqn:Ht.
  { by rewrite flushBuffered_idle by auto. }
  rewrite (flushBuffered_connected _ _ s g t ts) by done. cbn zeta.
  rewrite He, Hl, !firstn_nil. cbn [snd both attempts].
  reflexivity.
Qed.

(** C6. A flush takes its items off the front of the buffers before any
    request is answered: the state after the flush and the requests made
    are the same whatever the targets answer, and the flush is rejected
    exactly when a request fails.  Without a garden or without targets
    nothing is taken and nothing is sent.  Otherwise the first [eventTake]
    events and the first [logTake] log entries are no longer buffered, and
    the requests of the flush are one event request per target carrying
    the events taken (none when no event is taken) followed by one log
    request per target carrying the log entries taken (none when no log
    entry is taken): a target that fails has seen exactly one attempt for
    a batch.  After a flush of everything both buffers are empty and the
    next flush sends nothing, whatever the first one's targets answered. *)
Theorem flush_at_most_once (env : option string) (gotPost gotPost' : Api.Post -> bool)
    (s : BufferedEventStream) (flushAll : bool) :
  let r := flushBuffered env gotPost s flushAll in
  let r' := flushBuffered env gotPost' s flushAll in
  let evs := firstn (eventTake s flushAll) (bufferedEvents s) in
  let les := firstn (logTake s flushAll) (bufferedLogEntries s) in
  fst r = fst r' /\ attempts (snd r) = attempts (snd r') /\
  rejected (snd r) = existsb (fun p => negb (gotPost p)) (attempts (snd r)) /\
  (garden s = None \/ targets s = [] -> r = (s, nothingSent)) /\
  (garden s <> None -> targets s <> [] ->
   bufferedEvents (fst r) = skipn (eventTake s flushAll) (bufferedEvents s) /\
   bufferedLogEntries (fst r) = skipn (logTake s flushAll) (bufferedLogEntries s) /\
   attempts (snd r) = eventPosts (attempts (snd r)) ++ logPosts (attempts (snd r)) /\
   map Api.target (eventPosts (attempts (snd r))) = addressees evs (targets s) /\
   Forall (fun p => eventsOf p = evs) (eventPosts (attempts (snd r))) /\
   map Api.target (logPosts (attempts (snd r))) = addressees les (targets s) /\
   Forall (fun p => logEntriesOf p = les) (logPosts (attempts (snd r))) /\
   (flushAll = true ->
    evs = bufferedEvents s /\ les = bufferedLogEntries s /\
    bufferedEvents (fst r) = [] /\ bufferedLogEntries (fst r) = [] /\
    forall (again : bool) (gotPost'' : Api.Post -> bool),
      attempts (snd (flushBuffered env gotPost'' (fst r) again)) = [])).
Proof.
  cbn zeta.
  destruct (flushBuffered_before_outcome env gotPost gotPost' s flushAll) as (Hs & Ha).
  split; [exact Hs|]. split; [exact Ha|].
  split; [exact (proj1 (flushBuffered_sends env gotPost s flushAll))|].
  split; [apply flushBuffered_idle|].
  intros Hg Ht.
  destruct (flushBuffered_takes env gotPost s flushAll Hg Ht)
    as (He & Hl & Hatt & Het & Hef & Hlt & Hlf).
  do 7 (split; [assumption|]).
  intros ->. unfold eventTake, logTake in *.
  assert (Hme : forall n : nat, Z.to_nat (Z.min (Z.max (Z.of_nat n) 0) (Z.of_nat n)) = n)
    by (intros n; lia).
  rewrite !Hme in *. rewrite !firstn_all. rewrite skipn_all in He, Hl.
  do 4 (split; [done|]).
  intros again gp. by apply flushBuffered_nothing.
Qed.

Lemma flush_at_most_once_witness :
  let s := stream Sample.oneEvent in
  let r := flushBuffered None Sample.refuses s false in
  length (bufferedEvents s) = 1 /\
  map Api.target (attempts (snd r)) = [Sample.target] /\
  bufferedEvents (fst r) = [] /\
  rejected (snd r) = true /\
  fst r = fst (flushBuffered None Sample.accepts s false) /\
  length (network (run Sample.eventNames None Sample.refuses Sample.oneEvent
                     [Fire 0; Fire 0; Close])) = 1.
Proof.
  cbn zeta.
  destruct (flush_at_most_once None Sample.refuses Sample.accepts
              (stream Sample.oneEvent) false)
    as (Hst & _ & Hrej & _ & Htakes).
  destruct Htakes as (He & _ & Hatt & Het & _ & Hlt & _); [done | done |].
  split; [by vm_compute|].
  split; [rewrite Hatt, map_app, Het, Hlt; by vm_compute|].
  split; [rewrite He; by vm_compute|].
  split; [rewrite Hrej; by vm_compute|].
  split; [exact Hst|].
  by vm_compute.
Defined.

Lemma eventTake_all s : eventTake s true = length (bufferedEvents s).
Proof. unfold eventTake. lia. Qed.

Lemma logTake_all s : logTake s true = length (bufferedLogEntries s).
Proof. unfold logTake. lia. Qed.

(** A periodic flush takes the oldest [min(length, maxBatchSize)] events. *)
Lemma eventTake_periodic s :
  (0 <= maxBatchSize s)%Z ->
  eventTake s false = Nat.min (length (bufferedEvents s)) (Z.to_nat (maxBatchSize s)).
Proof. unfold eventTake. lia. Qed.

(** It takes [maxBatchSize - length] log entries (none when that is
    negative, all when it exceeds the length). *)
Lemma logTake_periodic s :
  logTake s false =
    Nat.min (length (bufferedLogEntries s))
      (Z.to_nat (maxBatchSize s - Z.of_nat (length (bufferedLogEntries s)))).
Proof. unfold logTake. lia. Qed.

(** What a periodic flush leaves in the buffers of a connected stream. *)
Lemma periodic_flush_takes (env : option string) (gotPost : Api.Post -> bool)
    (s : BufferedEventStream) (g : Gdn.Garden) (t : Api.StreamTarget)
    (ts : list Api.StreamTarget) :
  garden s = Some g -> targets s = t :: ts ->
  bufferedEvents (fst (flushBuffered env gotPost s false))
    = skipn (eventTake s false) (bufferedEvents s) /\
  bufferedLogEntries (fst (flushBuffered env gotPost s false))
    = skipn (logTake s false) (bufferedLogEntries s).
Proof.
  intros Hg Ht. by rewrite (flushBuffered_connected _ _ s g t ts).
Qed.





(** C1. At sixty buffered log entries and [maxBatchSize = 100], the
    periodic flush sends the oldest forty entries (100 - 60) and keeps
    twenty, where the oldest [min(60, 100) = 60] were to be sent. *)
Theorem periodic_flush_sixty_log_entries :
  map logEntriesOf (network Sample.sixtyLogEntries)
    = [map Sample.entry (seq 0 40)] /\
  bufferedLogEntries (stream Sample.sixtyLogEntries) = map Sample.entry (seq 40 20) /\
  Nat.min 60 (Z.to_nat (maxBatchSize (stream Sample.sixtyLogEntries))) = 60.
Proof. vm_compute. repeat split. Qed.


(** *** Runs: what reaches the network, and the correlation field *)

Section Runs.

Variable eventNames : list EventName.
Variable env : option string.
Variable gotPost : Api.Post -> bool.

Lemma subscribeToGardenEvents_stream w s bus :
  snd (subscribeToGardenEvents eventNames w s bus)
    = withListeners s (snd (subscribeLoop eventNames bus w [])).
Proof.
  unfold subscribeToGardenEvents. by destruct (subscribeLoop _ _ _ _).
Qed.

Lemma connect_stream w s g ts :
  exists ls t,
    snd (connect eventNames w s g ts) =
      {| sessionId := sessionId s;
         targets := match ts with Some ts' => ts' | None => targets s end;
         garden := Some g; workflowRunUid := workflowRunUid s;
         gardenEventListeners := ls; intervalId := Some t;
         bufferedEvents := bufferedEvents s;
         bufferedLogEntries := bufferedLogEntries s;
         intervalMsec := intervalMsec s; maxBatchSize := maxBatchSize s |}.
Proof.
  unfold connect, subscribeToGardenEvents, startInterval, setInterval.
  destruct (subscribeLoop _ _ _ _) as [w3 ls]. cbn.
  by exists ls, (nextTimer w3).
Qed.

Lemma flushBuffered_workflowRunUid s flushAll :
  workflowRunUid (fst (flushBuffered env gotPost s flushAll)) = workflowRunUid s.
Proof.
  destruct (garden s) as [g|] eqn:Hg; cycle 1.
  { by rewrite flushBuffered_idle by auto. }
  destruct (targets s) as [|t ts] eqn:Ht.
  { by rewrite flushBuffered_idle by auto. }
  by rewrite (flushBuffered_connected _ _ s g t ts).
Qed.

Lemma close_parts w s :
  close env gotPost w s =
    (match intervalId s with Some t => clearInterval w t | None => w end,
     fst (flushBuffered env gotPost
            (match intervalId s with Some _ => withIntervalId s None | None => s end) true),
     snd (flushBuffered env gotPost
            (match intervalId s with Some _ => withIntervalId s None | None => s end) true)).
Proof.
  unfold close. destruct (intervalId s); by destruct (flushBuffered _ _ _ _).
Qed.

(** A step adds requests that carry [getWorkflowRunUid()] of the state
    it starts from. *)
Lemma step_network p c :
  exists extra,
    network (step eventNames env gotPost p c) = network p ++ extra /\
    Forall (fun post => uidOf post = getWorkflowRunUid env (stream p)) extra.
Proof.
  destruct c as [g ts|n pl now|e|t|]; cbn [step].
  - destruct (connect _ _ _ _ _) as [w s]. exists []. by rewrite app_nil_r.
  - exists []. by rewrite app_nil_r.
  - exists []. by rewrite app_nil_r.
  - case_bool_decide; [|exists []; by rewrite app_nil_r].
    pose proof (flushBuffered_uid env gotPost (stream p) false) as Hu.
    destruct (flushBuffered _ _ _ _) as [s sent]. by exists (attempts sent).
  - rewrite close_parts. cbn [network]. eexists. split; [reflexivity|].
    eapply List.Forall_impl; [|apply flushBuffered_uid].
    intros post ->. unfold getWorkflowRunUid. by destruct (intervalId (stream p)).
Qed.

Lemma step_workflowRunUid p c :
  noControl c = true ->
  workflowRunUid (stream (step eventNames env gotPost p c)) = workflowRunUid (stream p).
Proof.
  destruct c as [g ts|n pl now|e|t|]; cbn [step noControl]; intros Hc.
  - destruct (connect_stream (world p) (stream p) g ts) as (ls & t & Hs).
    destruct (connect _ _ _ _ _) as [w s]. cbn in *. by subst s.
  - cbn [stream]. unfold streamEvent.
    by destruct (isControlEvent n).
  - done.
  - case_bool_decide; [|done].
    pose proof (flushBuffered_workflowRunUid (stream p) false) as Hw.
    by destruct (flushBuffered _ _ _ _) as [s sent].
  - rewrite close_parts. cbn [stream]. rewrite flushBuffered_workflowRunUid.
    by destruct (intervalId (stream p)).
Qed.

Lemma run_cons p c cs :
  run eventNames env gotPost p (c :: cs)
    = run eventNames env gotPost (step eventNames env gotPost p c) cs.
Proof. reflexivity. Qed.

(** When [getWorkflowRunUid()] is the same in all states, every request
    of a run carries it. *)
Lemma run_uid_constant (u : option string) cs : forall p,
  (forall s, getWorkflowRunUid env s = u) ->
  Forall (fun post => uidOf post = u) (network p) ->
  Forall (fun post => uidOf post = u) (network (run eventNames env gotPost p cs)).
Proof.
  induction cs as [|c cs IH]; intros p Hu Hp; [exact Hp|].
  rewrite run_cons. apply IH; [exact Hu|].
  destruct (step_network p c) as (extra & -> & Hextra).
  apply Forall_app. split; [exact Hp|]. by rewrite <- (Hu (stream p)).
Qed.

(** Without control events the scalar stays, and with the variable
    unset or empty every request carries the scalar. *)
Lemma run_uid_scalar cs : forall p,
  Js.truthy env = false ->
  forallb noControl cs = true ->
  Forall (fun post => uidOf post = workflowRunUid (stream p)) (network p) ->
  Forall (fun post => uidOf post = workflowRunUid (stream p))
    (network (run eventNames env gotPost p cs)).
Proof.
  induction cs as [|c cs IH]; intros p Henv Hcs Hp; [exact Hp|].
  cbn [forallb] in Hcs. apply andb_prop in Hcs as [Hc Hcs].
  rewrite run_cons, <- (step_workflowRunUid p c Hc).
  apply IH; [exact Henv | exact Hcs |].
  rewrite (step_workflowRunUid p c Hc).
  destruct (step_network p c) as (extra & -> & Hextra).
  apply Forall_app. split; [exact Hp|].
  eapply List.Forall_impl; [|exact Hextra].
  intros post ->. unfold getWorkflowRunUid, Js.or. by rewrite Henv.
Qed.

End Runs.

Lemma or_truthy (v : string) (b : option string) :
  v <> "" -> Js.or (Some v) b = Some v.
Proof.
  intros Hv. unfold Js.or, Js.truthy.
  destruct (String.eqb_spec v ""); [done|reflexivity].
Qed.

(** C9. With [GARDEN_WORKFLOW_RUN_UID] set to a non-empty value, every
    batch sent during a run carries that value as [workflowRunUid],
    whatever control events the run contains; with the variable unset,
    the batches of a flush carry the value the last control event left in
    the stream; and a batch carries something other than the value of the
    variable only when the variable is not set to a non-empty value. *)
Theorem env_workflowRunUid_takes_precedence
    (eventNames : list EventName) (gotPost : Api.Post -> bool) (v : string)
    (p : Process) (cs : list Call) (s : BufferedEventStream) (flushAll : bool) :
  v <> "" ->
  network p = [] ->
  Forall (fun post => uidOf post = Some v)
    (network (run eventNames (Some v) gotPost p cs)) /\
  Forall (fun post => uidOf post = workflowRunUid s)
    (attempts (snd (flushBuffered None gotPost s flushAll))) /\
  (forall env post,
     In post (attempts (snd (flushBuffered env gotPost s flushAll))) ->
     uidOf post <> env -> Js.truthy env = false).
Proof.
  intros Hv Hp. split; [|split].
  - apply run_uid_constant.
    + intros s0. unfold getWorkflowRunUid. by apply or_truthy.
    + rewrite Hp. constructor.
  - exact (flushBuffered_uid None gotPost s flushAll).
  - intros env post Hin Hne.
    pose proof (flushBuffered_uid env gotPost s flushAll) as Hall.
    rewrite List.Forall_forall in Hall. specialize (Hall post Hin).
    unfold getWorkflowRunUid, Js.or in Hall.
    destruct (Js.truthy env); [congruence|reflexivity].
Qed.

Lemma env_workflowRunUid_takes_precedence_witness :
  map uidOf (network Sample.envWins) = [Some "env-run"].
Proof.
  assert (Hv : "env-run" <> "") by discriminate.
  assert (Hp : network (Obs.fresh Sample.world0 Sample.logBus "session") = [])
    by reflexivity.
  pose proof (proj1 (env_workflowRunUid_takes_precedence Sample.eventNames Sample.accepts
                "env-run" _
                [Connect Sample.gardenA (Some [Sample.target]);
                 StreamEvent "_workflowRunRegistered" (Sample.registered "ctl-run") 1%Z;
                 StreamEvent "taskComplete" (Js.Obj []) 2%Z;
                 Fire 0]
                (stream Sample.connected) false Hv Hp)) as Hall.
  change (run _ _ _ _ _) with Sample.envWins in Hall.
  assert (Hlen : length (network Sample.envWins) = 1) by (by vm_compute).
  destruct (network Sample.envWins) as [|post [|? ?]]; try discriminate Hlen.
  apply Forall_cons in Hall as [Hpost _]. cbn. by rewrite Hpost.
Defined.

(** On a [null] or [undefined] payload the control event ends with the
    [TypeError] of the read, and the stream is as it was. *)
Lemma control_event_without_payload (s : BufferedEventStream) (payload : Js.Value)
    (now : Api.Date) :
  nullish payload = true ->
  streamEventThrows "_workflowRunRegistered" payload = true /\
  streamEvent s "_workflowRunRegistered" payload now = s.
Proof.
  intros Hp. unfold streamEventThrows, streamEvent, handleControlEvent, payloadWorkflowRunUid.
  by destruct payload.
Qed.

Lemma control_event_without_payload_witness :
  streamEventThrows "_workflowRunRegistered" Js.Null = true /\
  streamEvent (stream Sample.connected) "_workflowRunRegistered" Js.Null 9%Z
    = stream Sample.connected.
Proof. by apply control_event_without_payload. Defined.

(** C7 (amended). A control event leaves both buffers and every other
    field of the stream as they were, whatever its payload; with a payload
    whose [workflowRunUid] is a string it does not throw and stores that
    string in the stream; when [GARDEN_WORKFLOW_RUN_UID] is unset or empty,
    every batch sent afterwards, until the next control event, carries the
    stored value; otherwise every batch sent afterwards carries the value
    of the variable. *)
Theorem control_event_sets_workflowRunUid
    (eventNames : list EventName) (env : option string) (gotPost : Api.Post -> bool)
    (w : World) (s : BufferedEventStream) (name : EventName) (payload : Js.Value)
    (now : Api.Date) (cs : list Call) :
  isControlEvent name = true ->
  let s' := streamEvent s name payload now in
  bufferedEvents s' = bufferedEvents s /\
  bufferedLogEntries s' = bufferedLogEntries s /\
  (sessionId s', targets s', garden s', gardenEventListeners s', intervalId s',
   intervalMsec s', maxBatchSize s')
    = (sessionId s, targets s, garden s, gardenEventListeners s, intervalId s,
       intervalMsec s, maxBatchSize s) /\
  forall uid : string,
    Js.get payload "workflowRunUid" = Js.Normal (Js.Str uid) ->
    streamEventThrows name payload = false /\
    workflowRunUid s' = Some uid /\
    (Js.truthy env = false -> forallb noControl cs = true ->
     Forall (fun post => uidOf post = Some uid)
       (network (run eventNames env gotPost
                   {| world := w; stream := s'; network := [] |} cs))) /\
    (Js.truthy env = true ->
     Forall (fun post => uidOf post = env)
       (network (run eventNames env gotPost
                   {| world := w; stream := s'; network := [] |} cs))).
Proof.
  intros Hname. cbn zeta. unfold streamEventThrows, streamEvent. rewrite Hname.
  assert (Hn : name = "_workflowRunRegistered").
  { unfold isControlEvent, controlEventNames in Hname. cbn in Hname.
    rewrite orb_false_r in Hname. by apply String.eqb_eq in Hname. }
  subst name. unfold handleControlEvent. rewrite String.eqb_refl.
  split; [by destruct (payloadWorkflowRunUid payload)|].
  split; [by destruct (payloadWorkflowRunUid payload)|].
  split; [by destruct (payloadWorkflowRunUid payload)|].
  intros uid Hget. unfold payloadWorkflowRunUid. rewrite Hget.
  cbn [workflowRunUid andb].
  repeat (split; [reflexivity|]).
  split.
  - intros Henv Hcs.
    match goal with
    | |- Forall _ (network (run _ _ _ ?p _)) =>
        pose proof (run_uid_scalar eventNames env gotPost cs p Henv Hcs) as Hrun
    end.
    cbn [stream network workflowRunUid] in Hrun. apply Hrun. constructor.
  - intros Henv. apply run_uid_constant; [|constructor].
    intros s0. unfold getWorkflowRunUid, Js.or. by rewrite Henv.
Qed.

Lemma control_event_sets_workflowRunUid_witness :
  let s' := streamEvent (stream Sample.connected) "_workflowRunRegistered"
              (Sample.registered "ctl-run") 9%Z in
  let sent env :=
    network (run Sample.eventNames env Sample.accepts
               {| world := world Sample.connected; stream := s'; network := [] |}
               [StreamEvent "taskComplete" (Js.Obj []) 10%Z; Fire 0]) in
  workflowRunUid (stream Sample.connected) = None /\
  workflowRunUid s' = Some "ctl-run" /\
  length (sent None) = 2 /\
  Forall (fun post => uidOf post = Some "ctl-run") (sent None) /\
  length (sent (Some "env-run")) = 2 /\
  Forall (fun post => uidOf post = Some "env-run") (sent (Some "env-run")).
Proof.
  cbn zeta.
  split; [by vm_compute|].
  pose proof (fun env =>
    control_event_sets_workflowRunUid Sample.eventNames env Sample.accepts
      (world Sample.connected) (stream Sample.connected)
      "_workflowRunRegistered" (Sample.registered "ctl-run") 9%Z
      [StreamEvent "taskComplete" (Js.Obj []) 10%Z; Fire 0] eq_refl) as H.
  cbn zeta in H.
  destruct (H None) as (_ & _ & _ & Hnone).
  destruct (Hnone "ctl-run" eq_refl) as (_ & Hs & Hsent & _).
  destruct (H (Some "env-run")) as (_ & _ & _ & Henv).
  destruct (Henv "ctl-run" eq_refl) as (_ & _ & _ & Hsent').
  split; [exact Hs|].
  split; [by vm_compute|].
  split; [apply Hsent; reflexivity|].
  split; [by vm_compute|].
  apply Hsent'; reflexivity.
Defined.

(** C7, as stated, fails when the variable is set: under
    [GARDEN_WORKFLOW_RUN_UID=env-run], the batch flushed after the control
    event registered [ctl-run] carries [env-run]. *)
Lemma control_workflowRunUid_overridden_by_env :
  workflowRunUid (stream Sample.envWins) = Some "ctl-run" /\
  map uidOf (network Sample.envWins) = [Some "env-run"] /\
  Some "env-run" <> Some "ctl-run".
Proof. vm_compute. repeat split. discriminate. Qed.

End StreamFacts.

(* ===================================================================== *)
(** ** Connecting: timers and listener registrations *)
(* ===================================================================== *)

Module ConnectFacts.
Import Bus Stream Obs.

Lemma at_update f b b' (h : gmap BusId EventBus) :
  Bus.at_ (Bus.update f b h) b' = if decide (b = b') then f (Bus.at_ h b) else Bus.at_ h b'.
Proof.
  unfold Bus.at_, Bus.update. rewrite lookup_insert.
  by destruct (decide (b = b')).
Qed.

Lemma objSet_new {A} (k : string) (v : A) (o : list (string * A)) :
  k ∉ map fst o -> objSet k v o = o ++ [(k, v)].
Proof.
  induction o as [|[k' v'] o IH]; cbn; [done|]. intros Hk.
  apply not_elem_of_cons in Hk as [Hne Hk].
  destruct (String.eqb_spec k k') as [->|_]; [done|].
  by rewrite IH.
Qed.

Lemma closuresFrom_names c names : map fst (closuresFrom c names) = names.
Proof.
  revert c. induction names as [|n names IH]; intros c; cbn; [done|]. by rewrite IH.
Qed.

Lemma closuresFrom_stream c names :
  Forall (fun nl => isStreamReg nl = true) (closuresFrom c names).
Proof.
  revert c. induction names as [|n names IH]; intros c; cbn; constructor; auto.
Qed.

(** The loop of [subscribeToGardenEvents]. *)
Lemma subscribeLoop_spec names : forall bus w ls,
  NoDup (map fst ls ++ names) ->
  let r := subscribeLoop names bus w ls in
  snd r = ls ++ closuresFrom (nextClosure w) names /\
  timers (fst r) = timers w /\ nextTimer (fst r) = nextTimer w /\
  (forall b,
     Bus.at_ (buses (fst r)) b =
       if decide (bus = b) then
         {| named := named (Bus.at_ (buses w) bus) ++ closuresFrom (nextClosure w) names;
            anys := anys (Bus.at_ (buses w) bus) |}
       else Bus.at_ (buses w) b).
Proof.
  induction names as [|n names IH]; intros bus w ls Hnd; cbn zeta.
  - cbn. rewrite !app_nil_r. repeat split. intros b.
    destruct (decide (bus = b)) as [<-|]; [|done]. by destruct (Bus.at_ _ _).
  - cbn [subscribeLoop].
    assert (Hn : n ∉ map fst ls).
    { apply NoDup_app in Hnd as (_ & Hdis & _). intros Hin.
      apply (Hdis n Hin). by left. }
    rewrite (objSet_new n _ ls Hn).
    match goal with
    | |- context [subscribeLoop names bus ?w1 ?ls1] =>
        specialize (IH bus w1 ls1)
    end.
    cbn zeta in IH. destruct IH as (Hls & Ht & Hnt & Hb).
    { rewrite map_app. cbn. rewrite <- app_assoc. exact Hnd. }
    cbn [nextClosure buses timers nextTimer] in *.
    split; [by rewrite Hls, <- app_assoc|].
    split; [done|]. split; [done|].
    intros b. rewrite Hb, !at_update.
    destruct (decide (bus = b)) as [<-|]; [|done].
    rewrite decide_True by done. cbn. by rewrite <- app_assoc.
Qed.


Lemma filter_remove_first {A} `{EqDecision A} (f : A -> bool) (x : A) (l : list A) :
  f x = true -> List.filter f (remove_first x l) = remove_first x (List.filter f l).
Proof.
  intros Hx. induction l as [|y l IH]; cbn; [done|].
  destruct (decide (x = y)) as [<-|Hne].
  - rewrite Hx. cbn. by rewrite decide_True.
  - cbn. destruct (f y); cbn; [|exact IH].
    rewrite decide_False by done. by rewrite IH.
Qed.

Lemma filter_removeAll {A} `{EqDecision A} (f : A -> bool) (xs : list A) : forall l,
  Forall (fun x => f x = true) xs ->
  List.filter f (removeAll xs l) = removeAll xs (List.filter f l).
Proof.
  induction xs as [|x xs IH]; intros l Hxs; [done|].
  apply Forall_cons in Hxs as [Hx Hxs]. cbn.
  unfold removeAll in IH. by rewrite IH, filter_remove_first.
Qed.

Lemma removeAll_self {A} `{EqDecision A} (xs : list A) : removeAll xs xs = [].
Proof.
  induction xs as [|x xs IH]; [done|]. cbn. by rewrite decide_True.
Qed.

Lemma removeAll_nil {A} `{EqDecision A} (xs : list A) : removeAll xs [] = [].
Proof. induction xs as [|x xs IH]; [done|]. exact IH. Qed.

(** The loop of [unsubscribeFromGardenEvents]. *)
Lemma unsubscribe_loop (regs : list (EventName * Listener)) bus : forall w,
  let w' :=
    fold_left
      (fun w' nl =>
         Stream.withBuses w' (Bus.update (removeListener (fst nl) (snd nl)) bus (buses w')))
      regs w in
  timers w' = timers w /\ nextTimer w' = nextTimer w /\ nextClosure w' = nextClosure w /\
  (forall b,
     Bus.at_ (buses w') b =
       if decide (bus = b) then
         {| named := removeAll regs (named (Bus.at_ (buses w) bus));
            anys := anys (Bus.at_ (buses w) bus) |}
       else Bus.at_ (buses w) b).
Proof.
  induction regs as [|[n l] regs IH]; intros w; cbn zeta.
  - cbn. repeat split. intros b.
    destruct (decide (bus = b)) as [<-|]; [|done]. by destruct (Bus.at_ _ _).
  - cbn [fold_left].
    match goal with
    | |- context [fold_left _ regs ?w1] => specialize (IH w1)
    end.
    cbn zeta in IH. destruct IH as (Ht & Hnt & Hnc & Hb).
    split; [done|]. split; [done|]. split; [done|].
    intros b. rewrite Hb. cbn [Stream.withBuses buses]. rewrite !at_update.
    destruct (decide (bus = b)) as [<-|]; [|done].
    by rewrite decide_True.
Qed.

Lemma count_by_name (n : EventName) (regs : list (EventName * Listener)) :
  NoDup (map fst regs) ->
  length (List.filter (fun nl => String.eqb (fst nl) n) regs)
    = if bool_decide (n ∈ map fst regs) then 1 else 0.
Proof.
  induction regs as [|[k l] regs IH]; intros Hnd; cbn [map fst List.filter] in *.
  { rewrite bool_decide_false; [done|apply not_elem_of_nil]. }
  apply NoDup_cons in Hnd as [Hk Hrest]. specialize (IH Hrest).
  cbn [fst]. destruct (String.eqb_spec k n) as [->|Hne].
  - rewrite bool_decide_true by (by left). cbn [length]. rewrite IH.
    by rewrite bool_decide_false.
  - rewrite IH. destruct (decide (n ∈ map fst regs)) as [Hin|Hout].
    + rewrite !bool_decide_true; [done | by right | done].
    + rewrite !bool_decide_false; [done | | done].
      rewrite elem_of_cons. intros [?|?]; [congruence|done].
Qed.


Lemma remove_first_last {A} `{EqDecision A} (x : A) (l : list A) :
  x ∉ l -> remove_first x (l ++ [x]) = l.
Proof.
  induction l as [|y l IH]; cbn; intros Hx.
  - by rewrite decide_True.
  - apply not_elem_of_cons in Hx as [Hne Hx].
    rewrite decide_False by done. by rewrite IH.
Qed.

Lemma streamRegs_filter (b : EventBus) :
  Forall (fun nl => isStreamReg nl = true) (streamRegs b).
Proof.
  unfold streamRegs. apply List.Forall_forall. intros nl Hin.
  by apply List.filter_In in Hin as [_ ?].
Qed.

Section Connect.

Variable eventNames : list EventName.
Hypothesis eventNames_distinct : NoDup eventNames.

(** [connect], with the result of the subscription loop named. *)
Lemma connect_unfold w s g ts :
  let w1 := match intervalId s with Some t => clearInterval w t | None => w end in
  let w2 := match garden s with
            | Some old =>
                fold_left
                  (fun w' nl =>
                     Stream.withBuses w'
                       (Bus.update (removeListener (fst nl) (snd nl)) (Gdn.events old)
                          (buses w')))
                  (gardenEventListeners s) w1
            | None => w1
            end in
  let r := subscribeLoop eventNames (Gdn.events g) w2 [] in
  connect eventNames w s g ts =
    ({| buses := buses (fst r); timers := timers (fst r) ++ [nextTimer (fst r)];
        nextTimer := S (nextTimer (fst r)); nextClosure := nextClosure (fst r) |},
     {| sessionId := sessionId s;
        targets := match ts with Some ts' => ts' | None => targets s end;
        garden := Some g; workflowRunUid := workflowRunUid s;
        gardenEventListeners := snd r; intervalId := Some (nextTimer (fst r));
        bufferedEvents := bufferedEvents s;
        bufferedLogEntries := bufferedLogEntries s;
        intervalMsec := intervalMsec s; maxBatchSize := maxBatchSize s |}).
Proof.
  cbn zeta. unfold connect, subscribeToGardenEvents, unsubscribeFromGardenEvents,
    startInterval, setInterval.
  cbn [garden gardenEventListeners].
  by destruct (subscribeLoop _ _ _ _).
Qed.

(** [connect] keeps the stream's timers and registrations in order. *)
Lemma connect_connected others w s g ts :
  Connected eventNames others w s ->
  Connected eventNames others (fst (connect eventNames w s g ts))
    (snd (connect eventNames w s g ts)) /\
  garden (snd (connect eventNames w s g ts)) = Some g.
Proof.
  intros [Htm Hnd Hnum Hregs Hnames].
  rewrite connect_unfold. cbn zeta.
  set (w1 := match intervalId s with Some t => clearInterval w t | None => w end).
  assert (Hw1 : timers w1 = others /\ nextTimer w1 = nextTimer w /\ buses w1 = buses w).
  { subst w1. destruct (intervalId s) as [t|]; cbn.
    - rewrite Htm in Hnd |- *. apply NoDup_app in Hnd as (_ & Hdis & _).
      rewrite remove_first_last; [done|].
      intros Hin. apply (Hdis t Hin). by left.
    - by rewrite Htm, app_nil_r. }
  destruct Hw1 as (Ht1 & Hn1 & Hb1).
  set (w2 := match garden s with Some old => _ | None => w1 end).
  assert (Hw2 : timers w2 = others /\ nextTimer w2 = nextTimer w /\
                forall b, streamRegs (Bus.at_ (buses w2) b) = []).
  { subst w2. destruct (garden s) as [old|] eqn:Hg.
    - destruct (unsubscribe_loop (gardenEventListeners s) (Gdn.events old) w1)
        as (Ht & Hn & _ & Hb).
      split; [congruence|]. split; [congruence|].
      intros b. rewrite Hb, Hb1.
      destruct (decide (Gdn.events old = b)) as [<-|Hne].
      + unfold streamRegs. cbn [named].
        pose proof (Hregs (Gdn.events old)) as Hold.
        rewrite decide_True in Hold by done.
        rewrite filter_removeAll.
        * fold (streamRegs (Bus.at_ (buses w) (Gdn.events old))).
          rewrite Hold. apply removeAll_self.
        * rewrite <- Hold. apply streamRegs_filter.
      + rewrite Hregs. by rewrite decide_False.
    - split; [done|]. split; [done|]. intros b. by rewrite Hb1, Hregs. }
  destruct Hw2 as (Ht2 & Hn2 & Hb2).
  destruct (subscribeLoop_spec eventNames (Gdn.events g) w2 [])
    as (Hls & Ht3 & Hn3 & Hb3); [exact eventNames_distinct|].
  cbn [app] in Hls.
  cbn [fst snd garden]. split; [|reflexivity].
  constructor; cbn [timers nextTimer buses intervalId garden gardenEventListeners].
  - by rewrite Ht3, Ht2, Hn3, Hn2.
  - rewrite Ht3, Ht2, Hn3, Hn2. apply NoDup_app. split; [|split].
    + rewrite Htm in Hnd. by apply NoDup_app in Hnd as (? & _ & _).
    + intros t Hin Hin'. apply list_elem_of_singleton in Hin'. subst t.
      rewrite Htm in Hnum. apply Forall_app in Hnum as [Hnum _].
      rewrite Forall_forall in Hnum. specialize (Hnum _ Hin). lia.
    + apply NoDup_singleton.
  - rewrite Ht3, Ht2, Hn3, Hn2. apply Forall_app. split.
    + rewrite Htm in Hnum. apply Forall_app in Hnum as [Hnum _].
      eapply Forall_impl; [exact Hnum|]. cbn. lia.
    + repeat constructor.
  - intros b. rewrite Hb3, Hls.
    destruct (decide (Gdn.events g = b)) as [<-|Hne].
    + rewrite decide_True by done. unfold streamRegs. cbn [named].
      rewrite List.filter_app. fold (streamRegs (Bus.at_ (buses w2) (Gdn.events g))).
      rewrite Hb2. cbn [app]. apply StreamFacts.filter_all, closuresFrom_stream.
    + rewrite decide_False by done. apply Hb2.
  - intros _. rewrite Hls. apply closuresFrom_names.
Qed.


Lemma connected_same others w s s' :
  intervalId s' = intervalId s -> garden s' = garden s ->
  gardenEventListeners s' = gardenEventListeners s ->
  Connected eventNames others w s -> Connected eventNames others w s'.
Proof.
  intros Hi Hg Hl [Htm Hnd Hnum Hregs Hnames].
  constructor; rewrite ?Hi, ?Hg, ?Hl; auto.
Qed.

Lemma flushBuffered_same env gotPost s flushAll :
  let s' := fst (flushBuffered env gotPost s flushAll) in
  intervalId s' = intervalId s /\ garden s' = garden s /\
  gardenEventListeners s' = gardenEventListeners s.
Proof.
  cbn zeta. destruct (garden s) as [g|] eqn:Hg; cycle 1.
  { by rewrite StreamFacts.flushBuffered_idle by auto. }
  destruct (targets s) as [|t ts] eqn:Ht.
  { by rewrite StreamFacts.flushBuffered_idle by auto. }
  by rewrite (StreamFacts.flushBuffered_connected _ _ s g t ts).
Qed.

(** Every call keeps the stream's timers and registrations in order. *)
Lemma step_connected env gotPost others p c :
  Connected eventNames others (world p) (stream p) ->
  Connected eventNames others (world (step eventNames env gotPost p c))
    (stream (step eventNames env gotPost p c)).
Proof.
  intros Hc. destruct c as [g ts|n pl now|e|t|]; cbn [step].
  - pose proof (connect_connected others (world p) (stream p) g ts Hc) as [Hc' _].
    by destruct (connect _ _ _ _ _).
  - cbn [world stream]. eapply connected_same; [| | |exact Hc];
      unfold streamEvent, handleControlEvent;
      by destruct (isControlEvent n), (String.eqb n "_workflowRunRegistered"),
        (payloadWorkflowRunUid pl).
  - cbn [world stream]. by eapply connected_same; [| | |exact Hc].
  - case_bool_decide; [|done].
    pose proof (flushBuffered_same env gotPost (stream p) false) as (Hi & Hg & Hl).
    destruct (flushBuffered _ _ _ _) as [s sent]. cbn [world stream fst] in *.
    by eapply connected_same; [| | |exact Hc].
  - rewrite StreamFacts.close_parts. cbn [world stream].
    destruct Hc as [Htm Hnd Hnum Hregs Hnames].
    match goal with
    | |- Connected _ _ _ (fst (flushBuffered _ _ ?s1 _)) =>
        pose proof (flushBuffered_same env gotPost s1 true) as (Hi & Hg & Hl);
        assert (Hs1 : intervalId s1 = None /\ garden s1 = garden (stream p) /\
                      gardenEventListeners s1 = gardenEventListeners (stream p))
          by (by destruct (intervalId (stream p)) eqn:E)
    end.
    destruct Hs1 as (Hi1 & Hg1 & Hl1).
    constructor; rewrite ?Hi, ?Hg, ?Hl, ?Hi1, ?Hg1, ?Hl1; auto.
    + rewrite app_nil_r. destruct (intervalId (stream p)) as [t|]; cbn.
      * rewrite Htm in Hnd |- *. apply NoDup_app in Hnd as (_ & Hdis & _).
        rewrite remove_first_last; [done|].
        intros Hin. apply (Hdis t Hin). by left.
      * by rewrite Htm, app_nil_r.
    + destruct (intervalId (stream p)) as [t|]; cbn; [|done].
      rewrite Htm in Hnd |- *. apply NoDup_app in Hnd as (Ho & Hdis & _).
      rewrite remove_first_last; [done|].
      intros Hin. apply (Hdis t Hin). by left.
    + destruct (intervalId (stream p)) as [t|]; cbn; [|done].
      rewrite Htm in Hnd, Hnum |- *. apply NoDup_app in Hnd as (Ho & Hdis & _).
      rewrite remove_first_last.
      * by apply Forall_app in Hnum as [? _].
      * intros Hin. apply (Hdis t Hin). by left.
    + destruct (intervalId (stream p)); apply Hregs.
Qed.

Lemma run_connected env gotPost others cs : forall p,
  Connected eventNames others (world p) (stream p) ->
  Connected eventNames others (world (run eventNames env gotPost p cs))
    (stream (run eventNames env gotPost p cs)).
Proof.
  induction cs as [|c cs IH]; intros p Hc; [exact Hc|].
  rewrite StreamFacts.run_cons. by apply IH, step_connected.
Qed.

(** A new stream in a world that holds none of its listeners. *)
Lemma fresh_connected w logEvents sid :
  NoDup (timers w) ->
  Forall (fun t => t < nextTimer w) (timers w) ->
  (forall b, streamRegs (Bus.at_ (buses w) b) = []) ->
  Connected eventNames (timers w) (world (fresh w logEvents sid))
    (stream (fresh w logEvents sid)).
Proof.
  intros Hnd Hnum Hregs. constructor; cbn; auto.
  - by rewrite app_nil_r.
  - intros b. rewrite at_update.
    destruct (decide (logEvents = b)) as [<-|]; [|apply Hregs].
    unfold streamRegs. cbn [onAny named]. apply Hregs.
  - done.
Qed.

End Connect.

(** C8. After any sequence of calls that ends with [connect] of a garden
    [g], one interval timer of the stream is scheduled (the one in
    [intervalId]; the earlier ones were cleared), and for every event name
    the stream has exactly one listener registered on the bus of [g] and
    none on any other bus. *)
Theorem connect_leaves_one_timer_and_one_listener
    (eventNames : list EventName) (env : option string) (gotPost : Api.Post -> bool)
    (w : World) (logEvents : BusId) (sid : string)
    (cs : list Call) (g : Gdn.Garden) (ts : option (list Api.StreamTarget)) :
  NoDup eventNames ->
  NoDup (timers w) ->
  Forall (fun t => t < nextTimer w) (timers w) ->
  (forall b, streamRegs (Bus.at_ (buses w) b) = []) ->
  let p := run eventNames env gotPost (fresh w logEvents sid) (cs ++ [Connect g ts]) in
  (exists t, intervalId (stream p) = Some t /\ timers (world p) = timers w ++ [t]) /\
  (forall n b,
     regCount n (Bus.at_ (buses (world p)) b)
       = if bool_decide (b = Gdn.events g /\ n ∈ eventNames) then 1 else 0).
Proof.
  intros Hev Hnd Hnum Hregs. cbn zeta.
  unfold run. rewrite fold_left_app. cbn [fold_left].
  fold (run eventNames env gotPost (fresh w logEvents sid) cs).
  set (p := run eventNames env gotPost (fresh w logEvents sid) cs).
  assert (Hp : Connected eventNames (timers w) (world p) (stream p)).
  { apply run_connected; [exact Hev|]. by apply fresh_connected. }
  destruct (connect_connected eventNames Hev (timers w) (world p) (stream p) g ts Hp)
    as ([Htm _ _ Hr Hnames] & Hg).
  pose proof (StreamFacts.connect_stream eventNames (world p) (stream p) g ts)
    as (ls & t & Hs).
  cbn [step]. destruct (connect _ _ _ _ _) as [w' s']. cbn [fst snd world stream] in *.
  split.
  - exists t. rewrite Htm, Hs. by cbn.
  - intros n b. unfold regCount. rewrite Hr, Hg.
    destruct (decide (b = Gdn.events g)) as [->|Hne].
    + rewrite count_by_name; rewrite Hnames by congruence; [|exact Hev].
      destruct (decide (n ∈ eventNames)).
      * by rewrite !bool_decide_true.
      * rewrite !bool_decide_false; [done| |done]. by intros [_ ?].
    + cbn. rewrite bool_decide_false; [done|]. by intros [? _].
Qed.

Lemma connect_leaves_one_timer_and_one_listener_witness :
  let p := run Sample.eventNames None Sample.accepts
             (fresh Sample.world0 Sample.logBus "session")
             ([Connect Sample.gardenA (Some [Sample.target])]
                ++ [Connect Sample.gardenB None]) in
  timers (world p) = [1] /\
  regCount "taskComplete" (Bus.at_ (buses (world p)) (Gdn.events Sample.gardenB)) = 1 /\
  regCount "taskComplete" (Bus.at_ (buses (world p)) (Gdn.events Sample.gardenA)) = 0.
Proof.
  cbn zeta.
  destruct (connect_leaves_one_timer_and_one_listener Sample.eventNames None Sample.accepts
              Sample.world0 Sample.logBus "session"
              [Connect Sample.gardenA (Some [Sample.target])] Sample.gardenB None)
    as ((t & Hi & Ht) & Hcount).
  - apply (bool_decide_unpack _). by vm_compute.
  - apply NoDup_nil_2.
  - constructor.
  - intros b. reflexivity.
  - split; [|split].
    + rewrite Ht. cbn. f_equal. revert Hi. by vm_compute; intros [= <-].
    + rewrite Hcount. rewrite bool_decide_true; [done|]. split; [done|].
      apply (bool_decide_unpack _). by vm_compute.
    + rewrite Hcount. rewrite bool_decide_false; [done|]. by intros [? _].
Defined.

End ConnectFacts.

(* ===================================================================== *)
(** ** The command server *)
(* ===================================================================== *)

Module ServerFacts.
Import Bus Server Obs.

Lemma send_published w conn m : published (send w conn m) = published w.
Proof.
  unfold send. destruct (sockets w !! conn) as [sk|]; [|done].
  by destruct (isOpen sk).
Qed.

Lemma send_buses w conn m : buses (send w conn m) = buses w.
Proof.
  unfold send. destruct (sockets w !! conn) as [sk|]; [|done].
  by destruct (isOpen sk).
Qed.

Lemma invoke_all_published name payload ls : forall w,
  published (fold_left (invoke name payload) ls w) = published w.
Proof.
  induction ls as [|l ls IH]; intros w; [done|]. cbn [fold_left].
  rewrite IH. destruct l; try done. apply send_published.
Qed.

(** A publish is recorded once, on the bus it was made on. *)
Lemma emit_published w bus name payload :
  published (emit w bus name payload) = published w ++ [(bus, name, payload)].
Proof. unfold emit. by rewrite invoke_all_published. Qed.

Lemma get_defined e k :
  nullish e = false -> Js.get e k = Js.Normal (field k e).
Proof. unfold field. by destruct e. Qed.

Lemma forEachEmit_all bus items : forall w,
  Forall (fun e => nullish e = false) items ->
  snd (forEachEmit w bus items) = true /\
  published (fst (forEachEmit w bus items))
    = published w ++ map (fun e => (bus, field "name" e, field "payload" e)) items.
Proof.
  induction items as [|e items IH]; intros w Hitems.
  - cbn. by rewrite app_nil_r.
  - apply Forall_cons in Hitems as [He Hitems]. cbn [forEachEmit].
    rewrite !(get_defined e _ He).
    destruct (IH (emit w bus (field "name" e) (field "payload" e)) Hitems) as (Hok & Hpub).
    split; [exact Hok|]. rewrite Hpub, emit_published. cbn [map].
    by rewrite <- app_assoc.
Qed.

(** C4. [POST /events]: a header other than the server's [authKey] (or no
    header) is answered 401 and nothing is published, the world is left as
    it was; with the [authKey], every item of the body's [events] array is
    published on the server's inbound bus, in order, and the answer is
    200. *)
Theorem postEvents_requires_authKey (srv : GardenServer) (w : World)
    (authHeader : option string) (body : Js.Value) :
  (authHeader <> Some (authKey srv) ->
   postEvents srv w authHeader body = (w, Respond 401 None)) /\
  (authHeader = Some (authKey srv) ->
   forall items,
     Js.get body "events" = Js.Normal (Js.Arr items) ->
     Forall (fun e => nullish e = false) items ->
     snd (postEvents srv w authHeader body) = Respond 200 None /\
     published (fst (postEvents srv w authHeader body))
       = published w ++
           map (fun e => (incomingEvents srv, field "name" e, field "payload" e)) items).
Proof.
  unfold postEvents. split.
  - intros Hne. by rewrite bool_decide_true.
  - intros Heq items Hev Hitems.
    rewrite bool_decide_false by (intros Hne; by apply Hne).
    rewrite Hev. cbn [Js.get].
    destruct (forEachEmit_all (incomingEvents srv) items w Hitems) as (Hok & Hpub).
    destruct (forEachEmit _ _ _) as [w' ok]. cbn [fst snd] in *. by subst ok.
Qed.

Lemma postEvents_requires_authKey_witness :
  postEvents Sample.server0 Sample.serverWorld0 (Some "wrong") Sample.batch
    = (Sample.serverWorld0, Respond 401 None) /\
  snd (postEvents Sample.server0 Sample.serverWorld0 (Some "secret") Sample.batch)
    = Respond 200 None /\
  published (fst (postEvents Sample.server0 Sample.serverWorld0 (Some "secret") Sample.batch))
    = [(0, Js.Str "taskComplete", Sample.taskComplete);
       (0, Js.Str "taskPending", Js.Null)].
Proof.
  split.
  - apply (postEvents_requires_authKey Sample.server0 Sample.serverWorld0
             (Some "wrong") Sample.batch). discriminate.
  - edestruct (proj2 (postEvents_requires_authKey Sample.server0 Sample.serverWorld0
                        (Some "secret") Sample.batch)) as (Hstatus & Hpub).
    + reflexivity.
    + reflexivity.
    + by repeat constructor.
    + split; [exact Hstatus|]. rewrite Hpub. reflexivity.
Defined.

(** The events of an accepted batch are sent on an open socket. *)
Lemma relayed_events_reach_open_socket :
  let srv := fst Sample.withSocket in
  let w := fst (postEvents srv (snd Sample.withSocket) (Some "secret") Sample.batch) in
  outbox <$> sockets w !! 7
    = Some [event (Js.Str "taskComplete") Sample.taskComplete;
            event (Js.Str "taskPending") Js.Null].
Proof. by vm_compute. Qed.

(** An authenticated request whose body has no [events] array makes the
    handler throw. *)
Lemma postEvents_needs_array (srv : GardenServer) (w : World) (body : Js.Value) :
  (forall items, Js.get body "events" <> Js.Normal (Js.Arr items)) ->
  postEvents srv w (Some (authKey srv)) body = (w, Threw).
Proof.
  intros Hbody. unfold postEvents.
  rewrite bool_decide_false by (intros Hne; by apply Hne).
  destruct (Js.get body "events") as [events|]; [|done].
  destruct events; try done. by destruct (Hbody items).
Qed.

(** C10. An authenticated [POST /events] whose body is an object without
    an [events] array is answered neither 200 nor 401: the handler throws
    on [batch.events.length], and nothing is published. *)
Theorem postEvents_throws_on_body_without_events (srv : GardenServer) (w : World) :
  postEvents srv w (Some (authKey srv)) (Js.Obj [("sessionId", Js.Str "session")])
    = (w, Threw) /\
  postEvents srv w (Some (authKey srv)) (Js.Obj []) = (w, Threw) /\
  Threw <> Respond 200 None /\ Threw <> Respond 401 None.
Proof.
  repeat split; try discriminate; by apply postEvents_needs_array.
Qed.


Lemma emit_buses w bus name payload : buses (emit w bus name payload) = buses w.
Proof.
  unfold emit. generalize (listenersOf name (Bus.at_ (buses w) bus)).
  intros ls.
  set (w0 := Build_World _ _ _). change (buses w) with (buses w0). clearbody w0.
  revert w0. induction ls as [|l ls IH]; intros w0; [done|]. cbn [fold_left].
  rewrite IH. destruct l; try done. apply send_buses.
Qed.

(** *** Before a garden is attached *)









Section Serving.

Variable resolveRequest : Gdn.Garden -> Js.Value -> Settled.
Variable analyticsInit : Gdn.Garden -> bool.
Variable jsonParse : string -> option Js.Value.
Variable isUuid : string -> bool.





End Serving.




(** [setGarden] leaves the any-listeners of every bus where they are. *)
Lemma setGarden_keeps_any_listeners srv w g b :
  anys (Bus.at_ (buses (snd (setGarden srv w g))) b) = anys (Bus.at_ (buses w) b).
Proof.
  unfold setGarden. cbn [snd withBuses buses]. rewrite ConnectFacts.at_update.
  destruct (garden srv) as [old|]; cbn [buses withBuses].
  - destruct (decide (Gdn.events g = b)) as [<-|]; cbn [on anys];
      rewrite ConnectFacts.at_update;
      by destruct (decide (Gdn.events old = _)) as [<-|].
  - by destruct (decide (Gdn.events g = b)) as [<-|].
Qed.

(** C2. Garden A is attached, a socket connects, garden B is attached.
    An event that A publishes afterwards is sent on the socket, and an
    event that B publishes is not: the socket's listener is still
    registered on A's bus and was not registered on B's. *)
Theorem replaced_garden_still_forwards_to_open_socket :
  let srv := fst Sample.afterSecondGarden in
  let w := snd Sample.afterSecondGarden in
  garden srv = Some Sample.gardenB /\
  anys (Bus.at_ (buses w) (Gdn.events Sample.gardenA)) = [SocketEventListener 7] /\
  anys (Bus.at_ (buses w) (Gdn.events Sample.gardenB)) = [] /\
  outbox <$> sockets (emit w (Gdn.events Sample.gardenA)
                        (Js.Str "taskComplete") Sample.taskComplete) !! 7
    = Some [event (Js.Str "taskComplete") Sample.taskComplete] /\
  outbox <$> sockets (emit w (Gdn.events Sample.gardenB)
                        (Js.Str "taskComplete") Sample.taskComplete) !! 7
    = Some [].
Proof. vm_compute. repeat split. Qed.

(** Closing the socket after the second garden was attached takes the
    listener off B's bus, where it is not, and leaves it on A's. *)
Lemma close_after_replacement_leaves_listener :
  let srv := fst Sample.afterSecondGarden in
  let w := wsClose srv (snd Sample.afterSecondGarden) 7 in
  anys (Bus.at_ (buses w) (Gdn.events Sample.gardenA)) = [SocketEventListener 7].
Proof. by vm_compute. Qed.

End ServerFacts.

(* ===================================================================== *)
(** ** More on the stream: buffers, flushes, requests, subscriptions *)
(* ===================================================================== *)

Module StreamMore.
Import Bus Stream Obs StreamFacts.

Lemma withIntervalId_same s : withIntervalId s (intervalId s) = s.
Proof. by destruct s. Qed.

Section Steps.

Variable eventNames : list EventName.
Variable env : option string.
Variable gotPost : Api.Post -> bool.

(** What a call leaves of the fields it has no business with. *)
Lemma step_settings p c :
  sessionId (stream (step eventNames env gotPost p c)) = sessionId (stream p) /\
  maxBatchSize (stream (step eventNames env gotPost p c)) = maxBatchSize (stream p).
Proof.
  destruct c as [g ts|n pl now|e|t|]; cbn [step].
  - destruct (connect_stream eventNames (world p) (stream p) g ts) as (ls & t & Hs).
    destruct (connect _ _ _ _ _) as [w s]. cbn in *. by subst s.
  - cbn [stream]. unfold streamEvent, handleControlEvent.
    by destruct (isControlEvent n), (String.eqb n "_workflowRunRegistered"),
        (payloadWorkflowRunUid pl).
  - done.
  - case_bool_decide; [|done].
    destruct (garden (stream p)) as [g|] eqn:Hg; cycle 1.
    { by rewrite flushBuffered_idle by auto. }
    destruct (targets (stream p)) as [|t' ts] eqn:Ht.
    { by rewrite flushBuffered_idle by auto. }
    by rewrite (flushBuffered_connected _ _ (stream p) g t' ts).
  - rewrite close_parts. cbn [stream].
    set (s1 := match intervalId (stream p) with Some _ => _ | None => _ end).
    assert (Hs1 : sessionId s1 = sessionId (stream p) /\
                  maxBatchSize s1 = maxBatchSize (stream p))
      by (subst s1; by destruct (intervalId (stream p))).
    destruct Hs1 as (<- & <-).
    destruct (garden s1) as [g|] eqn:Hg; cycle 1.
    { by rewrite flushBuffered_idle by auto. }
    destruct (targets s1) as [|t' ts] eqn:Ht.
    { by rewrite flushBuffered_idle by auto. }
    by rewrite (flushBuffered_connected _ _ s1 g t' ts).
Qed.

(** The requests a call adds are those of one flush of the stream as it
    is, but for [intervalId]. *)
Lemma step_flushes p c :
  network (step eventNames env gotPost p c) = network p \/
  exists i flushAll,
    network (step eventNames env gotPost p c)
      = network p ++
          attempts (snd (flushBuffered env gotPost (withIntervalId (stream p) i) flushAll)).
Proof.
  destruct c as [g ts|n pl now|e|t|]; cbn [step].
  - left. by destruct (connect _ _ _ _ _).
  - by left.
  - by left.
  - case_bool_decide; [|by left]. right. exists (intervalId (stream p)), false.
    rewrite withIntervalId_same. by destruct (flushBuffered _ _ _ _).
  - right. rewrite close_parts. cbn [network]. exists None, true.
    destruct (intervalId (stream p)) eqn:Hi; [done|].
    by rewrite <- Hi, withIntervalId_same.
Qed.

(** A property of the requests of every flush of a stream with a given
    session holds of all the requests of a run. *)
Lemma run_requests (P : Api.Post -> Prop) (sid : string) :
  (forall s flushAll, sessionId s = sid ->
     Forall P (attempts (snd (flushBuffered env gotPost s flushAll)))) ->
  forall cs p,
    sessionId (stream p) = sid ->
    Forall P (network p) ->
    Forall P (network (run eventNames env gotPost p cs)).
Proof.
  intros Hflush. induction cs as [|c cs IH]; intros p Hsid Hp; [exact Hp|].
  rewrite run_cons. apply IH.
  - by rewrite (proj1 (step_settings p c)).
  - destruct (step_flushes p c) as [->|(i & fa & ->)]; [exact Hp|].
    apply Forall_app. split; [exact Hp|]. apply Hflush.
    by destruct (stream p).
Qed.


(** X1. Calls that are no flush only append to the buffers: afterwards the
    event buffer is what it was followed by the events streamed that are
    not control events, in call order, and likewise the log entries. *)
Theorem buffers_keep_call_order (p : Process) (cs : list Call) :
  forallb noFlush cs = true ->
  bufferedEvents (stream (run eventNames env gotPost p cs))
    = bufferedEvents (stream p) ++ streamedEvents cs /\
  bufferedLogEntries (stream (run eventNames env gotPost p cs))
    = bufferedLogEntries (stream p) ++ streamedLogEntries cs.
Proof.
  revert p. induction cs as [|c cs IH]; intros p Hcs.
  { cbn. by rewrite !app_nil_r. }
  cbn [forallb] in Hcs. apply andb_prop in Hcs as [Hc Hcs].
  rewrite run_cons. destruct (IH (step eventNames env gotPost p c) Hcs) as (-> & ->).
  destruct c as [g ts|n pl now|e|t|]; try discriminate Hc; cbn [step].
  - destruct (connect_stream eventNames (world p) (stream p) g ts) as (ls & t & Hs).
    destruct (connect _ _ _ _ _) as [w s]. cbn in *. by subst s.
  - cbn [stream streamedEvents streamedLogEntries flat_map]. unfold streamEvent.
    destruct (isControlEvent n) eqn:Hn.
    + unfold handleControlEvent.
      by destruct (String.eqb n "_workflowRunRegistered"), (payloadWorkflowRunUid pl).
    + cbn. by rewrite <- !app_assoc.
  - cbn. by rewrite <- !app_assoc.
Qed.

(** X2. A stream without targets that is given none sends nothing,
    whatever it is called with, [close()] included, and keeps every event
    and log entry it is handed. *)
Theorem without_targets_everything_accumulates (p : Process) (cs : list Call) :
  targets (stream p) = [] ->
  forallb noTarget cs = true ->
  network (run eventNames env gotPost p cs) = network p /\
  bufferedEvents (stream (run eventNames env gotPost p cs))
    = bufferedEvents (stream p) ++ streamedEvents cs /\
  bufferedLogEntries (stream (run eventNames env gotPost p cs))
    = bufferedLogEntries (stream p) ++ streamedLogEntries cs.
Proof.
  revert p. induction cs as [|c cs IH]; intros p Ht Hcs.
  { cbn. by rewrite !app_nil_r. }
  cbn [forallb] in Hcs. apply andb_prop in Hcs as [Hc Hcs].
  rewrite run_cons.
  assert (Hstep : targets (stream (step eventNames env gotPost p c)) = [] /\
                  network (step eventNames env gotPost p c) = network p /\
                  bufferedEvents (stream (step eventNames env gotPost p c))
                    = bufferedEvents (stream p) ++ streamedEvents [c] /\
                  bufferedLogEntries (stream (step eventNames env gotPost p c))
                    = bufferedLogEntries (stream p) ++ streamedLogEntries [c]).
  { destruct c as [g ts|n pl now|e|t|]; cbn [step].
    - destruct (connect_stream eventNames (world p) (stream p) g ts) as (ls & t & Hs).
      destruct (connect _ _ _ _ _) as [w s]. cbn in *. subst s. cbn.
      rewrite !app_nil_r. repeat split.
      destruct ts as [[|? ?]|]; [done|discriminate Hc|done].
    - cbn [stream network streamedEvents streamedLogEntries flat_map].
      unfold streamEvent. destruct (isControlEvent n) eqn:Hn.
      + unfold handleControlEvent.
        by destruct (String.eqb n "_workflowRunRegistered"), (payloadWorkflowRunUid pl);
          cbn; rewrite ?app_nil_r.
      + by cbn; rewrite ?app_nil_r.
    - by cbn; rewrite ?app_nil_r.
    - case_bool_decide; cbn; rewrite ?app_nil_r; [|done].
      by rewrite flushBuffered_idle by auto; cbn; rewrite ?app_nil_r.
    - rewrite close_parts. cbn [stream network].
      rewrite flushBuffered_idle by (right; by destruct (intervalId (stream p))).
      cbn. rewrite !app_nil_r. by destruct (intervalId (stream p)). }
  destruct Hstep as (Ht' & Hn & He & Hl).
  destruct (IH _ Ht' Hcs) as (-> & -> & ->).
  rewrite Hn, He, Hl. cbn [streamedEvents streamedLogEntries flat_map].
  by rewrite !app_nil_r, <- !app_assoc.
Qed.

End Steps.

Lemma buffers_keep_call_order_witness :
  let p := run Sample.eventNames None Sample.accepts Sample.connected
             [StreamEvent "taskComplete" (Js.Obj []) 6%Z;
              Connect Sample.gardenB None;
              StreamEvent "_workflowRunRegistered" (Sample.registered "run") 7%Z;
              StreamLogEntry (Sample.entry 2)] in
  map Api.timestamp (bufferedEvents (stream p)) = [5%Z; 6%Z] /\
  map Api.revision (bufferedLogEntries (stream p)) = [0%Z; 1%Z; 2%Z].
Proof.
  cbn zeta.
  destruct (buffers_keep_call_order Sample.eventNames None Sample.accepts Sample.connected
              [StreamEvent "taskComplete" (Js.Obj []) 6%Z;
               Connect Sample.gardenB None;
               StreamEvent "_workflowRunRegistered" (Sample.registered "run") 7%Z;
               StreamLogEntry (Sample.entry 2)]) as (He & Hl); [reflexivity|].
  rewrite He, Hl. by vm_compute.
Defined.

Lemma without_targets_everything_accumulates_witness :
  let p := run Sample.eventNames None Sample.accepts
             (fresh Sample.world0 Sample.logBus "session")
             [Connect Sample.gardenA None;
              StreamEvent "taskComplete" (Js.Obj []) 5%Z;
              Fire 0; StreamLogEntry (Sample.entry 0); Close] in
  network p = [] /\ length (bufferedEvents (stream p)) = 1 /\
  length (bufferedLogEntries (stream p)) = 1.
Proof.
  cbn zeta.
  destruct (without_targets_everything_accumulates Sample.eventNames None Sample.accepts
              (fresh Sample.world0 Sample.logBus "session")
              [Connect Sample.gardenA None;
               StreamEvent "taskComplete" (Js.Obj []) 5%Z;
               Fire 0; StreamLogEntry (Sample.entry 0); Close])
    as (Hn & He & Hl); [reflexivity | reflexivity |].
  by rewrite Hn, He, Hl.
Defined.


Lemma eventTake_min s :
  eventTake s false = Nat.min (length (bufferedEvents s)) (Z.to_nat (maxBatchSize s)).
Proof. unfold eventTake. lia. Qed.

Lemma logTake_backlog s :
  (maxBatchSize s <= Z.of_nat (length (bufferedLogEntries s)))%Z -> logTake s false = 0.
Proof. unfold logTake. lia. Qed.

(** X3. A periodic flush of a connected stream sends to every target one
    batch with the oldest [min(length, maxBatchSize)] events, in the order
    they were buffered, and leaves the rest of the events buffered; with
    no event buffered it sends no event batch. *)
Theorem periodic_flush_sends_oldest_events (env : option string)
    (gotPost : Api.Post -> bool) (s : BufferedEventStream) (g : Gdn.Garden)
    (t : Api.StreamTarget) (ts : list Api.StreamTarget) :
  garden s = Some g -> targets s = t :: ts ->
  let n := Nat.min (length (bufferedEvents s)) (Z.to_nat (maxBatchSize s)) in
  let r := flushBuffered env gotPost s false in
  map Api.target (eventPosts (attempts (snd r)))
    = addressees (firstn n (bufferedEvents s)) (t :: ts) /\
  Forall (fun p => eventsOf p = firstn n (bufferedEvents s)) (eventPosts (attempts (snd r))) /\
  bufferedEvents (fst r) = skipn n (bufferedEvents s).
Proof.
  intros Hg Ht. cbn zeta. rewrite <- eventTake_min.
  rewrite (flushBuffered_connected _ _ s g t ts) by done. cbn zeta.
  set (s' := withBuffers s _ _).
  assert (Hg' : garden s' = Some g) by done.
  destruct (flush_posts env gotPost s' g (firstn (eventTake s false) (bufferedEvents s))
              (firstn (logTake s false) (bufferedLogEntries s)) Hg') as (Hep & _).
  destruct (flushEvents_sends env gotPost s' g
              (firstn (eventTake s false) (bufferedEvents s)) Hg') as (Het & Hef & _).
  cbn [fst snd]. rewrite Hep. change (targets s') with (targets s) in Het.
  rewrite Ht in Het. split; [exact Het|]. split; [|done].
  eapply List.Forall_impl; [|exact Hef]. by intros p (_ & Hp & _).
Qed.

Lemma periodic_flush_sends_oldest_events_witness :
  let r := flushBuffered None Sample.accepts (stream Sample.connected) false in
  map eventsOf (eventPosts (attempts (snd r))) = [bufferedEvents (stream Sample.connected)] /\
  bufferedEvents (fst r) = [].
Proof.
  cbn zeta.
  destruct (periodic_flush_sends_oldest_events None Sample.accepts (stream Sample.connected)
              Sample.gardenA Sample.target []) as (Ht & Hall & Hrest);
    [reflexivity | reflexivity |].
  split; [|exact Hrest].
  assert (Hlen : length (eventPosts (attempts (snd (flushBuffered None Sample.accepts
                                                      (stream Sample.connected) false)))) = 1)
    by (by vm_compute).
  destruct (eventPosts _) as [|p [|? ?]]; try discriminate Hlen.
  apply Forall_cons in Hall as [Hp _]. cbn. by rewrite Hp.
Defined.

Section Backlog.

Variable eventNames : list EventName.
Variable env : option string.
Variable gotPost : Api.Post -> bool.

Lemma periodic_flush_keeps_backlog s :
  (maxBatchSize s <= Z.of_nat (length (bufferedLogEntries s)))%Z ->
  bufferedLogEntries (fst (flushBuffered env gotPost s false)) = bufferedLogEntries s /\
  logPosts (attempts (snd (flushBuffered env gotPost s false))) = [].
Proof.
  intros Hfull.
  destruct (garden s) as [g|] eqn:Hg; cycle 1.
  { by rewrite flushBuffered_idle by auto. }
  destruct (targets s) as [|t ts] eqn:Ht.
  { by rewrite flushBuffered_idle by auto. }
  rewrite (flushBuffered_connected _ _ s g t ts) by done. cbn zeta.
  rewrite (logTake_backlog s Hfull), firstn_O, skipn_O. cbn [fst snd].
  split; [done|].
  set (s' := withBuffers s _ _).
  assert (Hg' : garden s' = Some g) by done.
  pose proof (flush_posts env gotPost s' g
                (firstn (eventTake s false) (bufferedEvents s)) [] Hg') as Hposts.
  cbn zeta in Hposts. destruct Hposts as (_ & Hlp). by rewrite Hlp.
Qed.

(** X4. Once the log-entry buffer holds [maxBatchSize] entries or more,
    no timer flush takes any of them: until [close()] is called the buffered
    entries stay, new ones are appended behind them, and no log-entry batch
    is sent. *)
Theorem log_backlog_is_not_drained_by_timer (p : Process) (cs : list Call) :
  (maxBatchSize (stream p) <= Z.of_nat (length (bufferedLogEntries (stream p))))%Z ->
  forallb noClose cs = true ->
  bufferedLogEntries (stream (run eventNames env gotPost p cs))
    = bufferedLogEntries (stream p) ++ streamedLogEntries cs /\
  logPosts (network (run eventNames env gotPost p cs)) = logPosts (network p).
Proof.
  revert p. induction cs as [|c cs IH]; intros p Hfull Hcs.
  { cbn. by rewrite app_nil_r. }
  cbn [forallb] in Hcs. apply andb_prop in Hcs as [Hc Hcs].
  rewrite run_cons.
  assert (Hstep : bufferedLogEntries (stream (step eventNames env gotPost p c))
                    = bufferedLogEntries (stream p) ++ streamedLogEntries [c] /\
                  logPosts (network (step eventNames env gotPost p c))
                    = logPosts (network p)).
  { destruct c as [g ts|n pl now|e|t|]; try discriminate Hc; cbn [step].
    - destruct (connect_stream eventNames (world p) (stream p) g ts) as (ls & t & Hs).
      destruct (connect _ _ _ _ _) as [w s]. cbn in *. subst s. cbn.
      by rewrite app_nil_r.
    - cbn [stream network streamedLogEntries flat_map]. rewrite app_nil_r.
      unfold streamEvent, handleControlEvent.
      by destruct (isControlEvent n), (String.eqb n "_workflowRunRegistered"),
        (payloadWorkflowRunUid pl).
    - done.
    - cbn [streamedLogEntries flat_map]. rewrite !app_nil_r.
      case_bool_decide; [|done].
      destruct (periodic_flush_keeps_backlog (stream p) Hfull) as (Hl & Hp).
      destruct (flushBuffered _ _ _ _) as [s sent]. cbn [fst snd stream network] in *.
      split; [exact Hl|]. unfold logPosts in *. by rewrite List.filter_app, Hp, app_nil_r. }
  destruct Hstep as (Hl & Hn).
  destruct (IH (step eventNames env gotPost p c)) as (-> & ->); [|exact Hcs|].
  - rewrite (proj2 (step_settings eventNames env gotPost p c)), Hl, length_app. lia.
  - rewrite Hl, Hn. cbn [streamedLogEntries flat_map].
    by rewrite app_nil_r, <- app_assoc.
Qed.

End Backlog.

Lemma log_backlog_is_not_drained_by_timer_witness :
  let p := run Sample.eventNames None Sample.accepts Sample.backlog
             [Fire 0; StreamLogEntry (Sample.entry 100); Fire 0] in
  length (bufferedLogEntries (stream p)) = 101 /\
  logPosts (network p) = [].
Proof.
  cbn zeta.
  destruct (log_backlog_is_not_drained_by_timer Sample.eventNames None Sample.accepts
              Sample.backlog [Fire 0; StreamLogEntry (Sample.entry 100); Fire 0])
    as (Hl & Hp); [by vm_compute | reflexivity |].
  rewrite Hl, Hp. by vm_compute.
Defined.



Lemma postToTargets_requests gotPost s path data :
  Forall (fun p =>
            In (Api.target p) (targets s) /\
            Api.path p = path /\
            Api.url p = Api.host (Api.target p) +:+ "/" +:+ path /\
            Api.headers p = Api.clientAuthToken (Api.target p) /\
            Api.json p = data)
    (attempts (postToTargets gotPost s path data)).
Proof.
  unfold postToTargets; cbn [attempts]. apply List.Forall_forall.
  intros p Hp. apply in_map_iff in Hp as (t & <- & Hin). by cbn.
Qed.

(** The requests of a flush, one by one. *)
Lemma flushBuffered_requests (env : option string) (gotPost : Api.Post -> bool)
    (s : BufferedEventStream) (flushAll : bool) :
  Forall
    (fun p =>
       In (Api.target p) (targets s) /\
       Api.url p = Api.host (Api.target p) +:+ "/" +:+ Api.path p /\
       Api.headers p = Api.clientAuthToken (Api.target p) /\
       nonEmptyBatch p = true /\
       exists g, garden s = Some g /\
         Api.base (Api.json p)
           = {| Api.workflowRunUid := getWorkflowRunUid env s;
                Api.sessionId := sessionId s;
                Api.projectUid := Js.or (Gdn.projectId g) None |} /\
         match Api.json p with
         | Api.EventData b =>
             Api.path p = "events" /\
             Api.environment b = Gdn.environmentName g /\
             Api.namespace b = Gdn.namespace g
         | Api.LogData _ => Api.path p = "log-entries"
         end)
    (attempts (snd (flushBuffered env gotPost s flushAll))).
Proof.
  destruct (garden s) as [g|] eqn:Hg; cycle 1.
  { rewrite flushBuffered_idle by auto. constructor. }
  destruct (targets s) as [|t ts] eqn:Ht.
  { rewrite flushBuffered_idle by auto. constructor. }
  rewrite (flushBuffered_connected _ _ s g t ts) by done. cbn zeta.
  set (s' := withBuffers s _ _). cbn [snd both attempts].
  apply Forall_app. split.
  - unfold flushEvents. change (garden s') with (garden s). rewrite Hg.
    destruct (firstn _ (bufferedEvents s)) as [|e evs]; [constructor|].
    eapply List.Forall_impl; [|apply postToTargets_requests].
    intros p (Hin & Hpath & Hurl & Hhd & Hjson).
    change (targets s') with (targets s) in Hin. rewrite Ht in Hin.
    unfold nonEmptyBatch. rewrite Hjson, Hpath. cbn.
    repeat split; try done. by exists g.
  - unfold flushLogEntries. change (garden s') with (garden s). rewrite Hg.
    destruct (firstn _ (bufferedLogEntries s)) as [|e les]; [constructor|].
    eapply List.Forall_impl; [|apply postToTargets_requests].
    intros p (Hin & Hpath & Hurl & Hhd & Hjson).
    change (targets s') with (targets s) in Hin. rewrite Ht in Hin.
    unfold nonEmptyBatch. rewrite Hjson, Hpath. cbn.
    repeat split; try done. by exists g.
Qed.

(** X6. Every request of a flush goes to one of the stream's targets, to
    [host/events] for an event batch and to [host/log-entries] for a
    log-entry batch, with that target's token; its batch has at least one
    item and carries the stream's session id, [getWorkflowRunUid()], the
    project id of the attached garden (none when that is null or empty) and,
    for events, the garden's environment and namespace. *)
Theorem flush_requests (env : option string) (gotPost : Api.Post -> bool)
    (s : BufferedEventStream) (flushAll : bool) :
  Forall
    (fun p =>
       In (Api.target p) (targets s) /\
       Api.url p = Api.host (Api.target p) +:+ "/" +:+ Api.path p /\
       Api.headers p = Api.clientAuthToken (Api.target p) /\
       nonEmptyBatch p = true /\
       exists g, garden s = Some g /\
         Api.base (Api.json p)
           = {| Api.workflowRunUid := getWorkflowRunUid env s;
                Api.sessionId := sessionId s;
                Api.projectUid := Js.or (Gdn.projectId g) None |} /\
         match Api.json p with
         | Api.EventData b =>
             Api.path p = "events" /\
             Api.environment b = Gdn.environmentName g /\
             Api.namespace b = Gdn.namespace g
         | Api.LogData _ => Api.path p = "log-entries"
         end)
    (attempts (snd (flushBuffered env gotPost s flushAll))).
Proof. exact (flushBuffered_requests env gotPost s flushAll). Qed.

(** X7. Every request a stream sends in its life, from construction on
    and whatever it is called with, carries a batch with at least one item
    and the session id the stream was constructed with. *)
Theorem requests_carry_session (eventNames : list EventName) (env : option string)
    (gotPost : Api.Post -> bool) (w : World) (logEvents : BusId) (sid : string)
    (cs : list Call) :
  Forall (fun p => nonEmptyBatch p = true /\ sessionOf p = sid)
    (network (run eventNames env gotPost (fresh w logEvents sid) cs)).
Proof.
  apply (run_requests eventNames env gotPost _ sid); [|reflexivity|constructor].
  intros s flushAll Hsid.
  eapply List.Forall_impl; [|apply flushBuffered_requests].
  intros p (_ & _ & _ & Hne & g & _ & Hbase & _).
  split; [exact Hne|]. unfold sessionOf. by rewrite Hbase.
Qed.

(** X8. What was buffered before [connect], also before any garden was
    connected, is not lost: a [flushAll] after [connect] with a non-empty
    target list sends every buffered event and every buffered log entry to
    the new targets, and to no other, and empties the buffers. *)
Theorem connect_then_flush_all (eventNames : list EventName) (env : option string)
    (gotPost : Api.Post -> bool) (w : World) (s : BufferedEventStream)
    (g : Gdn.Garden) (t : Api.StreamTarget) (ts : list Api.StreamTarget) :
  let s' := snd (connect eventNames w s g (Some (t :: ts))) in
  let r := flushBuffered env gotPost s' true in
  map Api.target (eventPosts (attempts (snd r))) = addressees (bufferedEvents s) (t :: ts) /\
  Forall (fun p => eventsOf p = bufferedEvents s) (eventPosts (attempts (snd r))) /\
  map Api.target (logPosts (attempts (snd r)))
    = addressees (bufferedLogEntries s) (t :: ts) /\
  Forall (fun p => logEntriesOf p = bufferedLogEntries s) (logPosts (attempts (snd r))) /\
  bufferedEvents (fst r) = [] /\ bufferedLogEntries (fst r) = [].
Proof.
  cbn zeta.
  destruct (connect_stream eventNames w s g (Some (t :: ts))) as (ls & i & ->).
  set (s' := Build_BufferedEventStream _ _ _ _ _ _ _ _ _ _).
  pose proof (flushBuffered_sends env gotPost s' true) as Hsends. cbn zeta in Hsends.
  destruct Hsends as (_ & evs & les & He & Hl & Het & Hef & Hlt & Hlf).
  assert (Hempty : bufferedEvents (fst (flushBuffered env gotPost s' true)) = [] /\
                   bufferedLogEntries (fst (flushBuffered env gotPost s' true)) = []).
  { rewrite (flushBuffered_connected env gotPost s' g t ts) by done. cbn zeta.
    cbn [fst]. rewrite eventTake_all, logTake_all, !skipn_all. by cbn. }
  destruct Hempty as (Hee & Hle). rewrite Hee, app_nil_r in He.
  rewrite Hle, app_nil_r in Hl. cbn in He, Hl. subst evs les.
  by cbn in Het, Hlt.
Qed.


Lemma flushBuffered_events_from_buffer env gotPost s flushAll :
  noControlEvents (bufferedEvents s) ->
  noControlEvents (bufferedEvents (fst (flushBuffered env gotPost s flushAll))) /\
  Forall (fun p => noControlEvents (eventsOf p))
    (attempts (snd (flushBuffered env gotPost s flushAll))).
Proof.
  intros Hs. pose proof (flushBuffered_sends env gotPost s flushAll) as Hsends.
  cbn zeta in Hsends. destruct Hsends as (_ & evs & les & He & _ & _ & Hef & _).
  unfold noControlEvents in *. rewrite He in Hs. apply Forall_app in Hs as [Hevs Hrest].
  split; [exact Hrest|]. apply List.Forall_forall. intros p Hp.
  destruct (isEventPost p) eqn:Hk.
  - rewrite List.Forall_forall in Hef. rewrite (Hef p); [exact Hevs|].
    unfold eventPosts. apply List.filter_In. by split.
  - unfold eventsOf. unfold isEventPost in Hk. destruct (Api.json p); [discriminate|].
    constructor.
Qed.

(** X9. A control event is never sent to a target: no batch a stream
    sends, from construction on and whatever it is called with, has an
    event with a control-event name in it. *)
Theorem control_events_are_never_sent (eventNames : list EventName) (env : option string)
    (gotPost : Api.Post -> bool) (w : World) (logEvents : BusId) (sid : string)
    (cs : list Call) :
  Forall (fun p => noControlEvents (eventsOf p))
    (network (run eventNames env gotPost (fresh w logEvents sid) cs)).
Proof.
  assert (Hrun : forall cs p,
            noControlEvents (bufferedEvents (stream p)) ->
            Forall (fun q => noControlEvents (eventsOf q)) (network p) ->
            Forall (fun q => noControlEvents (eventsOf q))
              (network (run eventNames env gotPost p cs))).
  { clear cs. induction cs as [|c cs IH]; intros p Hb Hn; [exact Hn|].
    rewrite run_cons. destruct c as [g ts|n pl now|e|t|]; cbn [step].
    - destruct (connect_stream eventNames (world p) (stream p) g ts) as (ls & t & Hs).
      destruct (connect _ _ _ _ _) as [w' s']. cbn in Hs. subst s'. by apply IH.
    - apply IH; [|exact Hn]. cbn [stream]. unfold streamEvent.
      destruct (isControlEvent n) eqn:Hc.
      + unfold handleControlEvent. by destruct (String.eqb n "_workflowRunRegistered"), (payloadWorkflowRunUid pl).
      + cbn. apply Forall_app. split; [exact Hb|]. by repeat constructor.
    - by apply IH.
    - case_bool_decide; [|by apply IH].
      destruct (flushBuffered_events_from_buffer env gotPost (stream p) false Hb)
        as (Hb' & Hsent).
      destruct (flushBuffered _ _ _ _) as [s sent]. apply IH; [exact Hb'|].
      cbn [network]. apply Forall_app. by split.
    - rewrite close_parts.
      set (s1 := match intervalId (stream p) with
                 | Some _ => withIntervalId (stream p) None
                 | None => stream p
                 end).
      assert (Hb1 : noControlEvents (bufferedEvents s1))
        by (subst s1; by destruct (intervalId (stream p))).
      destruct (flushBuffered_events_from_buffer env gotPost s1 true Hb1) as (Hb' & Hsent).
      apply IH; [exact Hb'|]. cbn [network]. apply Forall_app. by split. }
  apply Hrun; constructor.
Qed.

(** *** Publishing on a bus the stream is subscribed to *)

Lemma calls_none ls :
  Forall (fun l => isStreamListener l = false) ls -> streamCalls ls = [].
Proof.
  induction 1 as [|l ls Hl _ IH]; [done|]. unfold streamCalls in *. cbn.
  rewrite IH. by destruct l.
Qed.

Lemma calls_stream_regs name (regs : list (EventName * Listener)) :
  streamCalls (map snd (List.filter (fun nl => String.eqb (fst nl) name) regs))
    = streamCalls (map snd (List.filter (fun nl => String.eqb (fst nl) name)
                        (List.filter isStreamReg regs))).
Proof.
  unfold streamCalls. induction regs as [|[n l] regs IH]; [done|].
  cbn [List.filter]. unfold isStreamReg at 1. cbn [fst snd].
  destruct l, (String.eqb n name) eqn:Hn;
    cbn [List.filter fst snd map flat_map app]; rewrite ?Hn;
    cbn [List.filter fst snd map flat_map app]; by rewrite ?IH.
Qed.

Lemma calls_closures name names : forall c,
  NoDup names ->
  streamCalls (map snd (List.filter (fun nl => String.eqb (fst nl) name) (closuresFrom c names)))
    = if bool_decide (name ∈ names) then [name] else [].
Proof.
  induction names as [|n names IH]; intros c Hnd; [done|].
  apply NoDup_cons in Hnd as [Hn Hnd]. cbn [closuresFrom List.filter fst].
  destruct (String.eqb_spec n name) as [->|Hne].
  - cbn [map snd streamCalls flat_map]. fold (streamCalls
      (map snd (List.filter (fun nl => String.eqb (fst nl) name) (closuresFrom (S c) names)))).
    rewrite IH by done.
    rewrite (bool_decide_false (name ∈ names)) by done.
    by rewrite bool_decide_true by (by left).
  - rewrite IH by done.
    destruct (decide (name ∈ names)) as [Hin|Hout].
    + rewrite !bool_decide_true; [done | by right | done].
    + rewrite !bool_decide_false; [done | | done].
      rewrite elem_of_cons. intros [?|?]; [congruence|done].
Qed.

Section Dispatch.

Variable eventNames : list EventName.
Variable env : option string.
Variable gotPost : Api.Post -> bool.
Hypothesis eventNames_distinct : NoDup eventNames.

(** [connect] registers closures for exactly the event names, and touches
    no any-listener. *)
Lemma connect_registers w s g ts :
  (exists c, gardenEventListeners (snd (connect eventNames w s g ts))
             = closuresFrom c eventNames) /\
  forall b, anys (Bus.at_ (buses (fst (connect eventNames w s g ts))) b)
            = anys (Bus.at_ (buses w) b).
Proof.
  rewrite ConnectFacts.connect_unfold. cbn zeta.
  set (w1 := match intervalId s with Some t => clearInterval w t | None => w end).
  set (w2 := match garden s with Some old => _ | None => w1 end).
  destruct (ConnectFacts.subscribeLoop_spec eventNames (Gdn.events g) w2 [])
    as (Hls & _ & _ & Hb); [exact eventNames_distinct|].
  cbn [fst snd gardenEventListeners buses]. split; [by eexists|].
  intros b. rewrite Hb.
  assert (Hw2 : anys (Bus.at_ (buses w2) b) = anys (Bus.at_ (buses w) b)
                /\ anys (Bus.at_ (buses w2) (Gdn.events g))
                   = anys (Bus.at_ (buses w) (Gdn.events g))).
  { assert (Hw1 : buses w1 = buses w) by (subst w1; by destruct (intervalId s)).
    subst w2. destruct (garden s) as [old|]; [|by rewrite Hw1].
    destruct (ConnectFacts.unsubscribe_loop (gardenEventListeners s) (Gdn.events old) w1)
      as (_ & _ & _ & Hu).
    rewrite !Hu, Hw1.
    split; by destruct (decide (Gdn.events old = _)) as [<-|]. }
  destruct Hw2 as (Hb2 & Hg2).
  destruct (decide (Gdn.events g = b)) as [<-|]; [exact Hg2 | exact Hb2].
Qed.

Lemma step_any_listeners p c b :
  anys (Bus.at_ (buses (world (step eventNames env gotPost p c))) b)
    = anys (Bus.at_ (buses (world p)) b).
Proof.
  destruct c as [g ts|n pl now|e|t|]; cbn [step].
  - pose proof (proj2 (connect_registers (world p) (stream p) g ts) b) as Ha.
    by destruct (connect _ _ _ _ _).
  - done.
  - done.
  - case_bool_decide; [|done]. by destruct (flushBuffered _ _ _ _).
  - rewrite close_parts. cbn [world]. by destruct (intervalId (stream p)).
Qed.

Lemma run_any_listeners cs : forall p b,
  anys (Bus.at_ (buses (world (run eventNames env gotPost p cs))) b)
    = anys (Bus.at_ (buses (world p)) b).
Proof.
  induction cs as [|c cs IH]; intros p b; [done|].
  by rewrite run_cons, IH, step_any_listeners.
Qed.

(** X10. After any calls that end with [connect] of a garden [g],
    publishing an event on the bus of [g] makes the stream record it once,
    under its own name, if the name is one of [eventNames], and not at all
    otherwise; publishing on any other bus, that of an earlier garden
    included, makes the stream record nothing. *)
Theorem published_event_is_streamed_once
    (w : World) (logEvents : BusId) (sid : string)
    (cs : list Call) (g : Gdn.Garden) (ts : option (list Api.StreamTarget))
    (name : EventName) :
  NoDup (timers w) ->
  Forall (fun t => t < nextTimer w) (timers w) ->
  (forall b, streamRegs (Bus.at_ (buses w) b) = []) ->
  (forall b, Forall (fun l => isStreamListener l = false) (anys (Bus.at_ (buses w) b))) ->
  let p := run eventNames env gotPost (fresh w logEvents sid) (cs ++ [Connect g ts]) in
  forall b,
    streamEventCalls name (Bus.at_ (buses (world p)) b)
      = if bool_decide (b = Gdn.events g /\ name ∈ eventNames) then [name] else [].
Proof.
  intros Hnd Hnum Hregs Hanys. cbn zeta. intros b.
  unfold streamEventCalls, listenersFor, streamCalls. rewrite flat_map_app.
  fold (streamCalls (anys (Bus.at_ (buses (world
    (run eventNames env gotPost (fresh w logEvents sid) (cs ++ [Connect g ts])))) b))).
  rewrite run_any_listeners.
  rewrite calls_none; cycle 1.
  { cbn. rewrite ConnectFacts.at_update.
    destruct (decide (logEvents = b)) as [<-|]; [|apply Hanys].
    cbn. apply Forall_app. split; [apply Hanys|by repeat constructor]. }
  cbn [app].
  match goal with
  | |- flat_map _ ?l = _ => fold (streamCalls l)
  end.
  rewrite calls_stream_regs.
  unfold run. rewrite fold_left_app. cbn [fold_left].
  fold (run eventNames env gotPost (fresh w logEvents sid) cs).
  set (p := run eventNames env gotPost (fresh w logEvents sid) cs).
  assert (Hp : Connected eventNames (timers w) (world p) (stream p)).
  { apply ConnectFacts.run_connected; [exact eventNames_distinct|].
    by apply ConnectFacts.fresh_connected. }
  destruct (ConnectFacts.connect_connected eventNames eventNames_distinct (timers w)
              (world p) (stream p) g ts Hp) as ([_ _ _ Hr _] & Hg).
  destruct (connect_registers (world p) (stream p) g ts) as ((c & Hc) & _).
  cbn [step]. destruct (connect _ _ _ _ _) as [w' s']. cbn [fst snd world stream] in *.
  fold (streamRegs (Bus.at_ (buses w') b)). rewrite Hr, Hg.
  destruct (decide (b = Gdn.events g)) as [->|Hne].
  - rewrite Hc, calls_closures by exact eventNames_distinct.
    destruct (decide (name ∈ eventNames)).
    + by rewrite !bool_decide_true.
    + rewrite !bool_decide_false; [done| |done]. by intros [_ ?].
  - cbn. rewrite bool_decide_false; [done|]. by intros [? _].
Qed.

End Dispatch.

Lemma published_event_is_streamed_once_witness :
  let p := run Sample.eventNames None Sample.accepts
             (fresh Sample.world0 Sample.logBus "session")
             ([Connect Sample.gardenA (Some [Sample.target])]
                ++ [Connect Sample.gardenB None]) in
  streamEventCalls "taskComplete" (Bus.at_ (buses (world p)) (Gdn.events Sample.gardenB))
    = ["taskComplete"] /\
  streamEventCalls "taskComplete" (Bus.at_ (buses (world p)) (Gdn.events Sample.gardenA))
    = [].
Proof.
  cbn zeta.
  assert (Hnames : NoDup Sample.eventNames)
    by (apply (bool_decide_unpack _); by vm_compute).
  pose proof (published_event_is_streamed_once Sample.eventNames None Sample.accepts Hnames
                Sample.world0 Sample.logBus "session"
                [Connect Sample.gardenA (Some [Sample.target])] Sample.gardenB None
                "taskComplete") as Hcalls.
  cbn zeta in Hcalls.
  assert (Hall : forall b,
            streamEventCalls "taskComplete"
              (Bus.at_ (buses (world (run Sample.eventNames None Sample.accepts
                 (fresh Sample.world0 Sample.logBus "session")
                 ([Connect Sample.gardenA (Some [Sample.target])]
                    ++ [Connect Sample.gardenB None])))) b)
            = if bool_decide (b = Gdn.events Sample.gardenB
                              /\ "taskComplete" ∈ Sample.eventNames)
              then ["taskComplete"] else []).
  { apply Hcalls.
    - apply NoDup_nil_2.
    - constructor.
    - intros b. reflexivity.
    - intros b. constructor. }
  split.
  - rewrite Hall, bool_decide_true; [done|]. split; [done|].
    apply (bool_decide_unpack _). by vm_compute.
  - rewrite Hall, bool_decide_false; [done|]. by intros [? _].
Defined.

End StreamMore.

(* ===================================================================== *)
(** ** More on the server: sockets, relayed events, messages, requests *)
(* ===================================================================== *)

Module ServerMore.
Import Bus Server Obs ServerFacts.

(** *** Publishing to sockets *)

Lemma send_other w conn c m : c <> conn -> sockets (send w c m) !! conn = sockets w !! conn.
Proof.
  intros Hne. unfold send. destruct (sockets w !! c) as [sk|]; [|done].
  destruct (isOpen sk); [|done]. cbn. by rewrite lookup_insert_ne.
Qed.

Lemma invoke_all_open name payload conn ls : forall w box,
  sockets w !! conn = Some {| isOpen := true; outbox := box |} ->
  sockets (fold_left (invoke name payload) ls w) !! conn
    = Some {| isOpen := true;
              outbox := box ++ repeat (event name payload)
                          (length (List.filter
                             (fun l => bool_decide (l = SocketEventListener conn)) ls)) |}.
Proof.
  induction ls as [|l ls IH]; intros w box Hw; cbn [fold_left List.filter].
  { cbn. by rewrite app_nil_r. }
  case_bool_decide as Hl.
  - subst l. cbn [invoke length repeat].
    rewrite (IH _ (box ++ [event name payload])).
    + by rewrite <- app_assoc.
    + unfold send. rewrite Hw. cbn. by rewrite lookup_insert_eq.
  - apply IH. destruct l; try done. cbn [invoke].
    rewrite send_other; [done|]. congruence.
Qed.

Lemma invoke_all_closed name payload conn ls : forall w sk,
  sockets w !! conn = Some sk -> isOpen sk = false ->
  sockets (fold_left (invoke name payload) ls w) !! conn = Some sk.
Proof.
  induction ls as [|l ls IH]; intros w sk Hw Hc; [done|]. cbn [fold_left].
  eapply IH; [|exact Hc]. destruct l as [| | |c|]; try done. cbn [invoke].
  destruct (decide (c = conn)) as [->|Hne]; [|by rewrite send_other].
  unfold send. by rewrite Hw, Hc.
Qed.

(** What a publish leaves in the outbox of a socket. *)
Lemma emit_outbox (w : World) (bus : BusId) (name payload : Js.Value)
    (conn : nat) (sk : Socket) :
  sockets w !! conn = Some sk ->
  sockets (emit w bus name payload) !! conn
    = Some (if isOpen sk then
              {| isOpen := true;
                 outbox := outbox sk ++
                           repeat (event name payload)
                             (socketCalls conn name (Bus.at_ (buses w) bus)) |}
            else sk).
Proof.
  intros Hw. unfold emit, socketCalls. destruct sk as [[|] box]; cbn [isOpen outbox].
  - by apply invoke_all_open.
  - by apply invoke_all_closed with (sk := {| isOpen := false; outbox := box |}).
Qed.

(** X11. A publish on a bus sends an open socket the event once for each
    time its listener is registered for it on that bus, after what the
    socket was sent before; a socket that is closed is sent nothing. *)
Theorem publish_reaches_socket (w : World) (bus : BusId) (name payload : Js.Value)
    (conn : nat) (sk : Socket) :
  sockets w !! conn = Some sk ->
  sockets (emit w bus name payload) !! conn
    = Some (if isOpen sk then
              {| isOpen := true;
                 outbox := outbox sk ++
                           repeat (event name payload)
                             (socketCalls conn name (Bus.at_ (buses w) bus)) |}
            else sk).
Proof. exact (emit_outbox w bus name payload conn sk). Qed.

Lemma publish_reaches_socket_witness :
  outbox <$> sockets (emit (snd Sample.withSocket) (Gdn.events Sample.gardenA)
                        (Js.Str "taskComplete") Sample.taskComplete) !! 7
    = Some [event (Js.Str "taskComplete") Sample.taskComplete].
Proof.
  rewrite (publish_reaches_socket (snd Sample.withSocket) (Gdn.events Sample.gardenA)
             (Js.Str "taskComplete") Sample.taskComplete 7
             {| isOpen := true; outbox := [] |}); [|by vm_compute].
  by vm_compute.
Defined.


(** *** Connections *)

Lemma remove_first_middle {A} `{EqDecision A} (x : A) (l k : list A) :
  x ∉ l -> remove_first x (l ++ x :: k) = l ++ k.
Proof.
  induction l as [|y l IH]; cbn; intros Hx.
  - by rewrite decide_True.
  - apply not_elem_of_cons in Hx as [Hne Hx].
    rewrite decide_False by done. by rewrite IH.
Qed.

Lemma bus_eta (b : EventBus) : {| named := named b; anys := anys b |} = b.
Proof. by destruct b. Qed.

(** X12. When a connection is closed while the garden it was opened
    under is still the attached one, every bus is as it was before the
    connection was opened: its listener is gone from the garden's bus and
    from the inbound bus, and the socket is marked closed. *)
Theorem connect_close_restores_buses (srv : GardenServer) (w : World) (g : Gdn.Garden)
    (conn : nat) :
  garden srv = Some g ->
  SocketEventListener conn ∉ anys (Bus.at_ (buses w) (Gdn.events g)) ->
  SocketEventListener conn ∉ anys (Bus.at_ (buses w) (incomingEvents srv)) ->
  let w' := wsClose srv (fst (wsConnect srv w conn)) conn in
  (forall b, Bus.at_ (buses w') b = Bus.at_ (buses w) b) /\
  sockets w' !! conn = Some {| isOpen := false; outbox := [] |}.
Proof.
  intros Hg Hng Hni. cbn zeta. unfold wsClose, wsConnect. rewrite Hg.
  cbn [fst buses sockets]. split.
  - intros b. rewrite !ConnectFacts.at_update.
    destruct (decide (incomingEvents srv = Gdn.events g)) as [Heq|Hne].
    + rewrite Heq in *.
      rewrite ?(decide_True (P := Gdn.events g = Gdn.events g)) by done.
      destruct (decide (Gdn.events g = b)) as [<-|]; [|done].
      unfold offAny, onAny. cbn [named anys].
      rewrite <- app_assoc. cbn [app].
      rewrite remove_first_middle by done.
      rewrite ConnectFacts.remove_first_last by done. apply bus_eta.
    + destruct (decide (incomingEvents srv = b)) as [<-|Hb].
      * destruct (decide (Gdn.events g = incomingEvents srv)) as [E|_]; [congruence|].
        rewrite (decide_True (P := incomingEvents srv = incomingEvents srv)) by done.
        unfold offAny, onAny. cbn [named anys].
        rewrite ConnectFacts.remove_first_last by done. apply bus_eta.
      * destruct (decide (Gdn.events g = b)) as [<-|]; [|done].
        rewrite ?(decide_True (P := Gdn.events g = Gdn.events g)) by done.
        unfold offAny, onAny. cbn [named anys].
        rewrite ConnectFacts.remove_first_last by done. apply bus_eta.
  - rewrite lookup_insert_eq. cbn. by rewrite lookup_insert_eq.
Qed.

Lemma connect_close_restores_buses_witness :
  let srv := fst (setGarden Sample.server0 Sample.serverWorld0 Sample.gardenA) in
  let w := snd (setGarden Sample.server0 Sample.serverWorld0 Sample.gardenA) in
  Bus.at_ (buses (wsClose srv (fst (wsConnect srv w 7)) 7)) (Gdn.events Sample.gardenA)
    = Bus.at_ (buses w) (Gdn.events Sample.gardenA) /\
  Bus.at_ (buses (wsClose srv (fst (wsConnect srv w 7)) 7)) (incomingEvents srv)
    = Bus.at_ (buses w) (incomingEvents srv).
Proof.
  cbn zeta.
  destruct (connect_close_restores_buses
              (fst (setGarden Sample.server0 Sample.serverWorld0 Sample.gardenA))
              (snd (setGarden Sample.server0 Sample.serverWorld0 Sample.gardenA))
              Sample.gardenA 7) as (Hb & _).
  - reflexivity.
  - vm_compute. apply not_elem_of_nil.
  - vm_compute. apply not_elem_of_nil.
  - split; apply Hb.
Defined.

Lemma count_listener conn conns :
  NoDup conns -> conn ∈ conns ->
  length (List.filter (fun l => bool_decide (l = SocketEventListener conn))
            (map SocketEventListener conns)) = 1.
Proof.
  induction conns as [|c conns IH]; intros Hnd Hin; [by apply elem_of_nil in Hin|].
  apply NoDup_cons in Hnd as [Hc Hnd]. cbn [map List.filter].
  apply elem_of_cons in Hin as [->|Hin].
  - rewrite bool_decide_true by done. cbn [length]. f_equal.
    clear IH Hnd. induction conns as [|c' conns IH]; [done|].
    apply not_elem_of_cons in Hc as [Hne Hc]. cbn [map List.filter].
    rewrite bool_decide_false by congruence. by apply IH.
  - rewrite bool_decide_false by (intros [= ->]; done). by apply IH.
Qed.

Lemma socketCalls_anys conn name b :
  socketRegs conn b = 0 ->
  forall extra,
    socketCalls conn name {| named := named b; anys := anys b ++ extra |}
      = length (List.filter (fun l => bool_decide (l = SocketEventListener conn)) extra).
Proof.
  unfold socketRegs, socketCalls. intros Hz extra.
  assert (Ha : List.filter (fun l => bool_decide (l = SocketEventListener conn)) (anys b) = [])
    by (apply length_zero_iff_nil; lia).
  assert (Hn : List.filter (fun nl => bool_decide (snd nl = SocketEventListener conn))
                 (named b) = [])
    by (apply length_zero_iff_nil; lia).
  assert (Hnamed : forall n,
            List.filter (fun l => bool_decide (l = SocketEventListener conn))
              (map snd (List.filter (fun nl => String.eqb (fst nl) n) (named b))) = []).
  { intros n. revert Hn. generalize (named b). intros regs.
    induction regs as [|[k l] regs IH]; [done|]. cbn [List.filter snd fst].
    case_bool_decide; [discriminate|]. intros Hrest.
    destruct (String.eqb k n); [|by apply IH]. cbn [map List.filter snd].
    rewrite bool_decide_false by done. by apply IH. }
  destruct name; unfold listenersOf, listenersFor; cbn [anys named];
    rewrite ?List.filter_app, ?Ha, ?Hnamed, ?app_nil_r; cbn [app]; done.
Qed.

Section Connections.

Variable srv : GardenServer.
Variable g : Gdn.Garden.
Hypothesis ready : garden srv = Some g.
Hypothesis own_bus : Gdn.events g <> incomingEvents srv.

Lemma wsConnect_ready w conn :
  let w' := fst (wsConnect srv w conn) in
  (forall b,
     Bus.at_ (buses w') b =
       if bool_decide (b = Gdn.events g \/ b = incomingEvents srv)
       then onAny (SocketEventListener conn) (Bus.at_ (buses w) b)
       else Bus.at_ (buses w) b) /\
  sockets w' = <[conn := {| isOpen := true; outbox := [] |}]> (sockets w) /\
  published w' = published w.
Proof.
  cbn zeta. unfold wsConnect. rewrite ready. cbn [fst buses sockets published].
  split; [|done]. intros b. rewrite !ConnectFacts.at_update.
  rewrite (decide_False (P := Gdn.events g = incomingEvents srv)) by done.
  destruct (decide (incomingEvents srv = b)) as [<-|Hb].
  - by rewrite bool_decide_true by (by right).
  - destruct (decide (Gdn.events g = b)) as [<-|Hgb].
    + by rewrite bool_decide_true by (by left).
    + rewrite bool_decide_false; [done|]. by intros [->| ->].
Qed.

(** The connections of a list, opened one after the other. *)
Lemma wsConnects_ready conns : forall w,
  let w' := wsConnects srv w conns in
  (forall b,
     Bus.at_ (buses w') b =
       if bool_decide (b = Gdn.events g \/ b = incomingEvents srv)
       then {| named := named (Bus.at_ (buses w) b);
               anys := anys (Bus.at_ (buses w) b) ++ map SocketEventListener conns |}
       else Bus.at_ (buses w) b) /\
  (forall c, c ∈ conns -> sockets w' !! c = Some {| isOpen := true; outbox := [] |}) /\
  (forall c, c ∉ conns -> sockets w' !! c = sockets w !! c).
Proof.
  induction conns as [|c conns IH] using rev_ind; intros w; cbn zeta.
  - cbn. split; [|split]; [|by intros c Hc; apply elem_of_nil in Hc|done].
    intros b. rewrite app_nil_r, bus_eta. by destruct (bool_decide _).
  - unfold wsConnects. rewrite fold_left_app. cbn [fold_left].
    fold (wsConnects srv w conns).
    destruct (IH w) as (Hb & Hin & Hout).
    destruct (wsConnect_ready (wsConnects srv w conns) c) as (Hb' & Hs' & _).
    split; [|split].
    + intros b. rewrite Hb', Hb. destruct (bool_decide _); [|done].
      unfold onAny. cbn [named anys]. by rewrite map_app, app_assoc.
    + intros c' Hc'. rewrite Hs'.
      destruct (decide (c = c')) as [->|Hne]; [by rewrite lookup_insert_eq|].
      rewrite lookup_insert_ne by done. apply Hin.
      apply elem_of_app in Hc' as [?|Hc']; [done|].
      apply list_elem_of_singleton in Hc'. congruence.
    + intros c' Hc'. rewrite Hs'.
      rewrite lookup_insert_ne by (intros ->; apply Hc', elem_of_app; right; by left).
      apply Hout. intros Hin'. apply Hc', elem_of_app. by left.
Qed.

(** X13. With a garden attached, whose bus is not the server's inbound
    bus, and connections opened one after the other, one publish on the
    garden's bus, or on the inbound bus, sends every one of them the event
    exactly once. *)
Theorem publish_fans_out (w : World) (conns : list nat) (bus : BusId)
    (name payload : Js.Value) :
  NoDup conns ->
  (forall c, c ∈ conns -> socketRegs c (Bus.at_ (buses w) bus) = 0) ->
  bus = Gdn.events g \/ bus = incomingEvents srv ->
  forall c, c ∈ conns ->
    sockets (emit (wsConnects srv w conns) bus name payload) !! c
      = Some {| isOpen := true; outbox := [event name payload] |}.
Proof.
  intros Hnd Hfree Hbus c Hc.
  destruct (wsConnects_ready conns w) as (Hb & Hin & _).
  rewrite (emit_outbox _ bus name payload c _ (Hin c Hc)).
  cbn [isOpen outbox app]. rewrite Hb, bool_decide_true by exact Hbus.
  rewrite (socketCalls_anys c name _ (Hfree c Hc)).
  by rewrite count_listener.
Qed.

End Connections.


Lemma publish_fans_out_witness :
  let w := emit (wsConnects (fst Sample.withSocket) (snd Sample.afterSetGarden) [7; 8])
             (Gdn.events Sample.gardenA) (Js.Str "taskComplete") Sample.taskComplete in
  sockets w !! 7
    = Some {| isOpen := true;
              outbox := [event (Js.Str "taskComplete") Sample.taskComplete] |} /\
  sockets w !! 8
    = Some {| isOpen := true;
              outbox := [event (Js.Str "taskComplete") Sample.taskComplete] |}.
Proof.
  cbn zeta.
  assert (Hall : forall c, c ∈ [7; 8] ->
            sockets (emit (wsConnects (fst Sample.withSocket) (snd Sample.afterSetGarden)
                             [7; 8])
                       (Gdn.events Sample.gardenA) (Js.Str "taskComplete")
                       Sample.taskComplete) !! c
            = Some {| isOpen := true;
                      outbox := [event (Js.Str "taskComplete") Sample.taskComplete] |}).
  { apply (publish_fans_out (fst Sample.withSocket) Sample.gardenA).
    - reflexivity.
    - discriminate.
    - apply (bool_decide_unpack _). by vm_compute.
    - intros c _. reflexivity.
    - by left. }
  split; apply Hall; apply (bool_decide_unpack _); by vm_compute.
Defined.

(** *** The events endpoint and the sockets *)

Lemma forEachEmit_outbox bus conn items : forall w box,
  Forall (fun e => nullish e = false) items ->
  sockets w !! conn = Some {| isOpen := true; outbox := box |} ->
  (forall name, socketCalls conn name (Bus.at_ (buses w) bus) = 1) ->
  sockets (fst (forEachEmit w bus items)) !! conn
    = Some {| isOpen := true; outbox := box ++ map eventMessage items |}.
Proof.
  induction items as [|e items IH]; intros w box Hitems Hw Hone.
  { cbn. by rewrite app_nil_r. }
  apply Forall_cons in Hitems as [He Hitems]. cbn [forEachEmit].
  rewrite !(get_defined e _ He).
  rewrite (IH _ (box ++ [eventMessage e])); [by rewrite <- app_assoc|exact Hitems| |].
  - rewrite (emit_outbox w bus _ _ conn _ Hw). cbn [isOpen outbox].
    by rewrite Hone.
  - intros name. by rewrite emit_buses.
Qed.

(** X14. The events of a batch posted to [/events] with the server's key
    are sent on a socket that was opened before, each once and in the order
    of the batch, after what the socket was sent before. *)
Theorem posted_events_are_relayed (srv : GardenServer) (g : Gdn.Garden) (w : World)
    (conn : nat) (body : Js.Value) (items : list Js.Value) :
  garden srv = Some g ->
  Gdn.events g <> incomingEvents srv ->
  socketRegs conn (Bus.at_ (buses w) (incomingEvents srv)) = 0 ->
  Js.get body "events" = Js.Normal (Js.Arr items) ->
  Forall (fun e => nullish e = false) items ->
  sockets (fst (postEvents srv (fst (wsConnect srv w conn)) (Some (authKey srv)) body)) !! conn
    = Some {| isOpen := true; outbox := map eventMessage items |}.
Proof.
  intros Hg Hown Hfree Hbody Hitems. unfold postEvents.
  rewrite bool_decide_false by (intros Hne; by apply Hne).
  rewrite Hbody. cbn [Js.get].
  destruct (wsConnect_ready srv g Hg Hown w conn) as (Hb & Hs & _).
  pose proof (forEachEmit_outbox (incomingEvents srv) conn items
                (fst (wsConnect srv w conn)) [] Hitems) as Hout.
  destruct (forEachEmit _ _ _) as [w' ok]. cbn [fst] in *. apply Hout.
  - rewrite Hs. by rewrite lookup_insert_eq.
  - intros name. rewrite Hb, bool_decide_true by (by right).
    unfold onAny. rewrite (socketCalls_anys conn name _ Hfree).
    cbn. by rewrite bool_decide_true.
Qed.

Lemma posted_events_are_relayed_witness :
  sockets (fst (postEvents (fst Sample.afterSetGarden)
                  (fst (wsConnect (fst Sample.afterSetGarden) (snd Sample.afterSetGarden) 7))
                  (Some "secret") Sample.batch)) !! 7
    = Some {| isOpen := true;
              outbox := [event (Js.Str "taskComplete") Sample.taskComplete;
                         event (Js.Str "taskPending") Js.Null] |}.
Proof.
  apply (posted_events_are_relayed (fst Sample.afterSetGarden) Sample.gardenA
           (snd Sample.afterSetGarden) 7 Sample.batch
           [Js.Obj [("name", Js.Str "taskComplete"); ("payload", Sample.taskComplete)];
            Js.Obj [("name", Js.Str "taskPending"); ("payload", Js.Null)]]).
  - reflexivity.
  - discriminate.
  - reflexivity.
  - reflexivity.
  - by repeat constructor.
Defined.

Lemma forEachEmit_stops bus good bad rest : forall w,
  Forall (fun e => nullish e = false) good ->
  nullish bad = true ->
  snd (forEachEmit w bus (good ++ bad :: rest)) = false /\
  published (fst (forEachEmit w bus (good ++ bad :: rest)))
    = published w ++ map (fun e => (bus, field "name" e, field "payload" e)) good.
Proof.
  induction good as [|e good IH]; intros w Hgood Hbad.
  - cbn [app forEachEmit map]. rewrite app_nil_r. by destruct bad.
  - apply Forall_cons in Hgood as [He Hgood]. cbn [app forEachEmit].
    rewrite !(get_defined e _ He).
    destruct (IH (emit w bus (field "name" e) (field "payload" e)) Hgood Hbad)
      as (Hok & Hpub).
    split; [exact Hok|]. rewrite Hpub, emit_published. cbn [map].
    by rewrite <- app_assoc.
Qed.

(** X15. When an item of a batch posted with the server's key is [null],
    the items before it have been published on the inbound bus when the
    handler throws; that item and the ones after it are not published. *)
Theorem null_item_stops_the_batch (srv : GardenServer) (w : World) (body : Js.Value)
    (good rest : list Js.Value) (bad : Js.Value) :
  Js.get body "events" = Js.Normal (Js.Arr (good ++ bad :: rest)) ->
  Forall (fun e => nullish e = false) good ->
  nullish bad = true ->
  snd (postEvents srv w (Some (authKey srv)) body) = Threw /\
  published (fst (postEvents srv w (Some (authKey srv)) body))
    = published w ++
        map (fun e => (incomingEvents srv, field "name" e, field "payload" e)) good.
Proof.
  intros Hbody Hgood Hbad. unfold postEvents.
  rewrite bool_decide_false by (intros Hne; by apply Hne).
  rewrite Hbody. cbn [Js.get].
  destruct (forEachEmit_stops (incomingEvents srv) good bad rest w Hgood Hbad)
    as (Hok & Hpub).
  destruct (forEachEmit _ _ _) as [w' ok]. cbn [fst snd] in *. by subst ok.
Qed.

Lemma null_item_stops_the_batch_witness :
  snd (postEvents Sample.server0 Sample.serverWorld0 (Some "secret") Sample.batchWithNull)
    = Threw /\
  published (fst (postEvents Sample.server0 Sample.serverWorld0 (Some "secret")
                    Sample.batchWithNull))
    = [(0, Js.Str "taskComplete", Sample.taskComplete)].
Proof.
  apply (null_item_stops_the_batch Sample.server0 Sample.serverWorld0
           Sample.batchWithNull
           [Js.Obj [("name", Js.Str "taskComplete"); ("payload", Sample.taskComplete)]]
           [Js.Obj [("name", Js.Str "taskPending"); ("payload", Js.Null)]] Js.Null).
  - reflexivity.
  - by repeat constructor.
  - reflexivity.
Defined.


(** *** Attaching gardens *)

Lemma count_remove_first {A} `{EqDecision A} (x : A) (l : list A) :
  length (List.filter (fun y => bool_decide (y = x)) (remove_first x l))
    = pred (length (List.filter (fun y => bool_decide (y = x)) l)).
Proof.
  induction l as [|y l IH]; [done|]. cbn [remove_first List.filter].
  destruct (decide (x = y)) as [<-|Hne].
  - by rewrite bool_decide_true.
  - rewrite bool_decide_false by congruence. cbn [List.filter].
    by rewrite bool_decide_false by congruence.
Qed.

Lemma setGarden_registrations srv w g b :
  serversUpdatedRegs (Bus.at_ (buses (snd (setGarden srv w g))) b)
    = (let before :=
         match garden srv with
         | Some old =>
             if decide (Gdn.events old = b)
             then pred (serversUpdatedRegs (Bus.at_ (buses w) b))
             else serversUpdatedRegs (Bus.at_ (buses w) b)
         | None => serversUpdatedRegs (Bus.at_ (buses w) b)
         end in
       if decide (Gdn.events g = b) then S before else before).
Proof.
  unfold setGarden. cbn [snd withBuses buses]. rewrite ConnectFacts.at_update.
  assert (Hold : forall b',
            serversUpdatedRegs
              (Bus.at_ (buses match garden srv with
                              | Some old =>
                                  withBuses w
                                    (Bus.update
                                       (removeListener "serversUpdated" ServersUpdatedListener)
                                       (Gdn.events old) (buses w))
                              | None => w
                              end) b')
            = match garden srv with
              | Some old =>
                  if decide (Gdn.events old = b')
                  then pred (serversUpdatedRegs (Bus.at_ (buses w) b'))
                  else serversUpdatedRegs (Bus.at_ (buses w) b')
              | None => serversUpdatedRegs (Bus.at_ (buses w) b')
              end).
  { intros b'. destruct (garden srv) as [old|]; [|done].
    cbn [withBuses buses]. rewrite ConnectFacts.at_update.
    destruct (decide (Gdn.events old = b')) as [<-|]; [|done].
    unfold serversUpdatedRegs, removeListener. cbn [named].
    apply count_remove_first. }
  cbn zeta. destruct (decide (Gdn.events g = b)) as [<-|]; [|apply Hold].
  rewrite <- Hold. unfold serversUpdatedRegs at 1, on. cbn [named].
  rewrite List.filter_app, length_app. cbn [List.filter].
  rewrite bool_decide_true by done. cbn [length]. unfold serversUpdatedRegs.
  apply Nat.add_1_r.
Qed.

Lemma setGardens_snoc srv w gs g :
  setGardens srv w (gs ++ [g])
    = setGarden (fst (setGardens srv w gs)) (snd (setGardens srv w gs)) g.
Proof. unfold setGardens. by rewrite fold_left_app. Qed.

(** The listener is registered once, on the bus of the attached garden. *)
Lemma setGardens_registrations gs : forall srv w,
  garden srv = None ->
  (forall b, serversUpdatedRegs (Bus.at_ (buses w) b) = 0) ->
  let r := setGardens srv w gs in
  garden (fst r) = List.last (map Some gs) None /\
  middleware (fst r) = middleware srv ++ artifactMounts gs /\
  forall b,
    serversUpdatedRegs (Bus.at_ (buses (snd r)) b)
      = match garden (fst r) with
        | Some g => if decide (Gdn.events g = b) then 1 else 0
        | None => 0
        end.
Proof.
  induction gs as [|g gs IH] using rev_ind; intros srv w Hnone Hzero; cbn zeta.
  { cbn. rewrite Hnone, app_nil_r. repeat split. intros b. apply Hzero. }
  rewrite setGardens_snoc. destruct (IH srv w Hnone Hzero) as (Hg & Hm & Hr).
  split; [|split].
  - rewrite map_app. cbn [map]. by rewrite List.last_last.
  - unfold setGarden at 1. cbn [fst middleware]. rewrite Hm.
    unfold artifactMounts. by rewrite map_app, app_assoc.
  - intros b. rewrite setGarden_registrations. cbn zeta.
    unfold setGarden at 1. cbn [fst garden].
    rewrite !Hr. destruct (garden (fst (setGardens srv w gs))) as [old|].
    + destruct (decide (Gdn.events old = b)); by destruct (decide (Gdn.events g = b)).
    + by destruct (decide (Gdn.events g = b)).
Qed.

(** X16. After gardens have been attached one after the other, starting
    with no garden, the last one is the attached garden and
    [serversUpdatedListener] is registered exactly once on its bus and on
    no other bus; the app has one more [/artifacts] mount for every garden
    that was attached, in that order, earlier mounts included. *)
Theorem setGarden_moves_listener (srv : GardenServer) (w : World)
    (gs : list Gdn.Garden) (g : Gdn.Garden) :
  garden srv = None ->
  (forall b, serversUpdatedRegs (Bus.at_ (buses w) b) = 0) ->
  let r := setGardens srv w (gs ++ [g]) in
  garden (fst r) = Some g /\
  middleware (fst r) = middleware srv ++ artifactMounts (gs ++ [g]) /\
  forall b,
    serversUpdatedRegs (Bus.at_ (buses (snd r)) b)
      = if bool_decide (b = Gdn.events g) then 1 else 0.
Proof.
  intros Hnone Hzero. cbn zeta.
  destruct (setGardens_registrations (gs ++ [g]) srv w Hnone Hzero) as (Hg & Hm & Hr).
  rewrite map_app in Hg. cbn [map] in Hg. rewrite List.last_last in Hg.
  split; [exact Hg|]. split; [exact Hm|].
  intros b. rewrite Hr, Hg.
  destruct (decide (Gdn.events g = b)) as [<-|Hne].
  - by rewrite bool_decide_true.
  - by rewrite bool_decide_false by congruence.
Qed.

Lemma setGarden_moves_listener_witness :
  let r := setGardens Sample.server0 Sample.serverWorld0 ([Sample.gardenA] ++ [Sample.gardenB]) in
  serversUpdatedRegs (Bus.at_ (buses (snd r)) (Gdn.events Sample.gardenB)) = 1 /\
  serversUpdatedRegs (Bus.at_ (buses (snd r)) (Gdn.events Sample.gardenA)) = 0 /\
  length (middleware (fst r)) = 2.
Proof.
  cbn zeta.
  destruct (setGarden_moves_listener Sample.server0 Sample.serverWorld0
              [Sample.gardenA] Sample.gardenB) as (_ & Hm & Hr).
  - reflexivity.
  - intros b. reflexivity.
  - rewrite !Hr, Hm. by vm_compute.
Defined.


(** *** Messages on a socket *)

Section Messages.

Variable resolveRequest : Gdn.Garden -> Js.Value -> Settled.
Variable jsonParse : string -> option Js.Value.
Variable isUuid : string -> bool.


(** X18. The handler of a socket message uses the garden only to resolve
    a command: when it does, a garden is attached, the message has a valid
    [id] and the type ["command"], and the one use is the resolution of the
    message without its [id] and [type]. *)
Theorem garden_is_used_for_commands_only (srv : GardenServer) (w w' : World)
    (conn : nat) (msg : string) (uses : list Access) :
  wsMessage resolveRequest jsonParse isUuid srv w conn msg = Js.Normal (w', uses) ->
  uses <> [] ->
  exists g request,
    garden srv = Some g /\
    jsonParse msg = Some request /\
    validId isUuid (field "id" request) = true /\
    field "type" request = Js.Str "command" /\
    uses = [ResolveRequest g (Js.omit request ["id"; "type"])].
Proof.
  unfold wsMessage. intros Hm Huses.
  destruct (jsonParse msg) as [request|] eqn:Hparse; [|by injection Hm as _ <-].
  destruct (nullish request) eqn:Hnull; [by destruct request|].
  rewrite !(get_defined request _ Hnull) in Hm.
  destruct (validId isUuid (field "id" request)) eqn:Hid; cbn [negb] in Hm;
    [|by injection Hm as _ <-].
  destruct (validType (field "type" request)) eqn:Hty; cbn [negb] in Hm;
    [|by injection Hm as _ <-].
  destruct (String.eqb_spec (typeText (field "type" request)) "command") as [Hc|_];
    [|by injection Hm as _ <-].
  destruct (garden srv) as [g|]; [|by injection Hm as _ <-].
  exists g, request. repeat split; try done.
  - destruct (field "type" request); try discriminate Hty. cbn in Hc. by subst.
  - by destruct (resolveRequest g _); injection Hm as _ <-.
Qed.

End Messages.

Lemma garden_is_used_for_commands_only_witness :
  exists w' uses,
    wsMessage Sample.resolveRequest Sample.jsonParse Sample.isUuid
      (fst Sample.withSocket) (snd Sample.withSocket) 7 "command" = Js.Normal (w', uses) /\
    uses = [ResolveRequest Sample.gardenA (Js.Obj [("command", Js.Str "get.status")])].
Proof.
  pose (r := wsMessage Sample.resolveRequest Sample.jsonParse Sample.isUuid
               (fst Sample.withSocket) (snd Sample.withSocket) 7 "command").
  assert (Hr : r = Js.Normal
                     (send (snd Sample.withSocket) 7
                        (commandResult (Js.Str Sample.uuid) (Js.Obj []) None),
                      [ResolveRequest Sample.gardenA
                         (Js.Obj [("command", Js.Str "get.status")])]))
    by reflexivity.
  eexists _, _. split; [exact Hr|].
  destruct (garden_is_used_for_commands_only Sample.resolveRequest Sample.jsonParse
              Sample.isUuid (fst Sample.withSocket) (snd Sample.withSocket) _ 7 "command" _ Hr)
    as (g & request & Hg & Hp & _ & _ & Hu); [discriminate|].
  reflexivity.
Defined.

(** *** [POST /api] when ready *)

Section Api.

Variable resolveRequest : Gdn.Garden -> Js.Value -> Settled.
Variable analyticsInit : Gdn.Garden -> bool.

Lemma postApis_cons srv body bodies :
  postApis resolveRequest analyticsInit srv (body :: bodies)
    = (fst (postApis resolveRequest analyticsInit
              (fst (fst (postApi resolveRequest analyticsInit srv body))) bodies),
       snd (postApi resolveRequest analyticsInit srv body)
         :: snd (postApis resolveRequest analyticsInit
                   (fst (fst (postApi resolveRequest analyticsInit srv body))) bodies)).
Proof.
  cbn [postApis]. destruct (postApi _ _ _ _) as [[srv' r] acc]. cbn [fst snd].
  by destruct (postApis _ _ _ _).
Qed.



(** X20. While the analytics handler cannot be initialised, every
    [POST /api] request throws after the attempt, the command is not
    resolved, and the attempt is made again on the next request. *)
Theorem failed_analytics_blocks_commands (srv : GardenServer) (g : Gdn.Garden)
    (bodies : list Js.Value) :
  garden srv = Some g ->
  analytics srv = false ->
  analyticsInit g = false ->
  postApis resolveRequest analyticsInit srv bodies
    = (srv, map (fun _ => [AnalyticsInit g]) bodies) /\
  forall body, snd (fst (postApi resolveRequest analyticsInit srv body)) = Threw.
Proof.
  intros Hg Ha Hinit. split.
  - induction bodies as [|body bodies IH]; [done|].
    rewrite postApis_cons. unfold postApi. rewrite Hg, Ha, Hinit. cbn [negb andb fst snd].
    by rewrite IH.
  - intros body. unfold postApi. by rewrite Hg, Ha, Hinit.
Qed.

End Api.


Lemma failed_analytics_blocks_commands_witness :
  postApis Sample.resolveRequest Sample.analyticsInitFails (fst Sample.afterSetGarden)
    [Sample.commandRequest; Sample.commandRequest]
  = (fst Sample.afterSetGarden,
     [[AnalyticsInit Sample.gardenA]; [AnalyticsInit Sample.gardenA]]).
Proof.
  apply (failed_analytics_blocks_commands Sample.resolveRequest Sample.analyticsInitFails
           (fst Sample.afterSetGarden) Sample.gardenA
           [Sample.commandRequest; Sample.commandRequest]); reflexivity.
Defined.

(** *** The status line *)

(** X21. On a ["serversUpdated"] event the status line shows the host of
    the first server in the list whose command is ["dashboard"]; when there
    is none, or when the host of that one is empty, it shows the server's
    own URL, [http://localhost:<port>]. *)
Theorem status_line_shows_first_dashboard (cyan : string -> string)
    (srv : GardenServer) (servers : list ServerInfo) :
  serversUpdatedListener cyan srv servers
    = {| emoji := "sunflower";
         msg := cyan "Garden dashboard running at " +:+
                match firstDashboard servers with
                | Some sv => if String.eqb (host sv) "" then getUrl srv else host sv
                | None => getUrl srv
                end |}.
Proof.
  induction servers as [|sv servers IH]; cbn [serversUpdatedListener firstDashboard List.find].
  - reflexivity.
  - destruct (String.eqb (command sv) "dashboard"); [|exact IH].
    unfold showUrl, Js.truthy. by destruct (String.eqb (host sv) "").
Qed.

End ServerMore.
